(** * go-envsync: provider registry and client load engine

    A shallow embedding of [pkg/providers/registry] (the provider
    catalogue: [Register], [Unregister], [CreateProvider]) and of
    [pkg/client] (the load pipeline: [parseSource], [loadFromSource],
    [mergeConfiguration], [Load], [Environment.Get]/[Set]), followed by
    the properties of the design document that concern them.

    Conventions of the embedding:
    - a Go [string] is a sequence of bytes, here [string] over [ascii];
    - a Go [map[string]T] is a [gmap string T]; a [nil] map reads like
      the empty one, and a write to it panics: [Client.AddProvider] and
      [Environment.Set], which write to a map of a receiver that the
      caller may have built as a literal, take the receiver with that
      map either allocated or [nil];
    - Go [int] values are in [Z] (map sizes never reach the 64-bit
      limit);
    - a Go [error] is [option error]: [None] is [nil];
    - a method that mutates its receiver returns the receiver's new
      state next to its Go results;
    - the order in which [range] visits a map is not fixed by Go: it is
      a parameter [range_order], known only to enumerate the map. *)

From Stdlib Require Import ZArith String Ascii List Lia.
From stdpp Require Import base option list strings gmap fin_maps fin_map_dom pretty.

Local Open Scope string_scope.
Local Open Scope Z_scope.

(** ** Go's [error] values as produced by [fmt.Errorf] *)
Module GoErrors.

(** [errorString] is what [fmt.Errorf] returns for a format without
    [%w]; [wrapError] keeps the whole message and the wrapped error. *)
Inductive error : Type :=
| errorString (s : string)
| wrapError (msg : string) (err : error).

Definition Error (e : error) : string :=
  match e with
  | errorString s => s
  | wrapError msg _ => msg
  end.

Definition Unwrap (e : error) : option error :=
  match e with
  | errorString _ => None
  | wrapError _ err => Some err
  end.

(** [fmt.Errorf(msg)] where [msg] is the format with its [%s] and [%d]
    verbs already filled in. *)
Definition Errorf (msg : string) : error := errorString msg.

(** [fmt.Errorf(prefix + "%w", err)]: every [%w] of the two packages
    is the last verb of its format. *)
Definition Errorw (prefix : string) (err : error) : error :=
  wrapError (prefix +:+ Error err) err.

(** The [%d] verb on an [int]. *)
Definition fmt_d (n : Z) : string := pretty n.

End GoErrors.

(** ** The functions of Go's [strings] package that the code calls *)
Module GoStrings.

Definition byte (n : N) : ascii := ascii_of_N n.

(** [asciiSpace] of package [strings]: tab, LF, VT, FF, CR, space. *)
Definition asciiSpace (c : ascii) : bool :=
  let n := N_of_ascii c in
  ((n =? 9) || (n =? 10) || (n =? 11) || (n =? 12) || (n =? 13) || (n =? 32))%N.

(** UTF-8 encodings of the non-ASCII runes for which [unicode.IsSpace]
    holds: U+0085, U+00A0, U+1680, U+2000..U+200A, U+2028, U+2029,
    U+202F, U+205F, U+3000. *)
Definition unicodeSpace : list (list ascii) :=
  map (map byte)
    (app [ [0xC2; 0x85]; [0xC2; 0xA0]; [0xE1; 0x9A; 0x80] ]
       (app (map (fun n => [0xE2; 0x80; n])
               [0x80; 0x81; 0x82; 0x83; 0x84; 0x85; 0x86; 0x87; 0x88; 0x89;
                0x8A; 0xA8; 0xA9; 0xAF])
            [ [0xE2; 0x81; 0x9F]; [0xE3; 0x80; 0x80] ]))%N.

Fixpoint dropPrefix (p l : list ascii) : option (list ascii) :=
  match p, l with
  | [], _ => Some l
  | _ :: _, [] => None
  | a :: p', b :: l' => if Ascii.eqb a b then dropPrefix p' l' else None
  end.

(** One white-space rune taken from the front of [l], if there is one.
    [encs] are the multi-byte encodings to try. *)
Definition dropSpace (encs : list (list ascii)) (l : list ascii)
  : option (list ascii) :=
  match l with
  | [] => None
  | c :: l' =>
      if asciiSpace c then Some l'
      else
        fold_right
          (fun enc acc =>
             match dropPrefix enc l with Some r => Some r | None => acc end)
          None encs
  end.

Fixpoint trimFront (fuel : nat) (encs : list (list ascii)) (l : list ascii)
  : list ascii :=
  match fuel with
  | O => l
  | S fuel' =>
      match dropSpace encs l with
      | Some r => trimFront fuel' encs r
      | None => l
      end
  end.

Definition TrimLeftSpace (l : list ascii) : list ascii :=
  trimFront (length l) unicodeSpace l.

(** Trimming at the end reads the runes backwards ([DecodeLastRune]). *)
Definition TrimRightSpace (l : list ascii) : list ascii :=
  rev (trimFront (length l) (map (@rev ascii) unicodeSpace) (rev l)).

(** [strings.TrimSpace]. *)
Definition TrimSpace (s : string) : string :=
  string_of_list_ascii
    (TrimRightSpace (TrimLeftSpace (list_ascii_of_string s))).

(** [strings.Index(s, sep)]: byte offset of the first occurrence of
    [sep] in [s]; [None] stands for -1. *)
Definition Index (s sep : string) : option nat := String.index 0 sep s.

(** The loop of [genSplit]: at most [fuel] cuts. *)
Fixpoint genSplit_loop (fuel : nat) (s sep : string) : list string :=
  match fuel with
  | O => [s]
  | S fuel' =>
      match Index s sep with
      | None => [s]
      | Some m =>
          String.substring 0 m s
            :: genSplit_loop fuel'
                 (String.substring (m + String.length sep)
                    (String.length s - (m + String.length sep)) s)
                 sep
      end
  end.

(** [strings.SplitN(s, sep, n)] for a non-empty [sep] and [n >= 0]
    (the only way the client calls it): [n = 0] gives [nil]; otherwise
    [n] is first capped at [len(s) + 1] and the loop cuts at most
    [n - 1] times. *)
Definition SplitN (s sep : string) (n : nat) : list string :=
  match n with
  | O => []
  | S n' => genSplit_loop (Nat.min n' (String.length s)) s sep
  end.

(** [strings.Count(s, sep)] for a non-empty [sep]: the number of
    non-overlapping occurrences, found from left to right. *)
Fixpoint Count_loop (fuel : nat) (s sep : string) : nat :=
  match fuel with
  | O => O
  | S fuel' =>
      match Index s sep with
      | None => O
      | Some m =>
          S (Count_loop fuel'
               (String.substring (m + String.length sep)
                  (String.length s - (m + String.length sep)) s)
               sep)
      end
  end.

Definition Count (s sep : string) : nat := Count_loop (String.length s) s sep.

(** [strings.Split(s, sep)] for a non-empty [sep]: [genSplit] with
    [n = Count(s, sep) + 1], capped at [len(s) + 1]. *)
Definition Split (s sep : string) : list string :=
  genSplit_loop (Nat.min (Count s sep) (String.length s)) s sep.

(** [strings.Contains(s, substr)]. *)
Definition Contains (s substr : string) : bool :=
  match Index s substr with Some _ => true | None => false end.

(** [strings.ContainsAny(s, chars)] when [chars] holds ASCII bytes only:
    an ASCII byte of [s] is always a rune of its own, so the test is on
    bytes. *)
Definition ContainsAny (s chars : string) : bool :=
  existsb (fun b => existsb (Ascii.eqb b) (list_ascii_of_string chars))
    (list_ascii_of_string s).

End GoStrings.

(** ** Package [client] *)
Module client.
Import GoErrors GoStrings.

Definition DefaultProviderName : string := "default".
Definition MaxEnvironmentKeys : Z := 10000.
Definition MaxKeyLength : Z := 256.
Definition MaxValueLength : Z := 4096.
Definition MaxProviders : Z := 50.
Definition SourceProviderParts : nat := 2.
Definition MinSourceParts : nat := 2.

(** [len(m)] of a map and [len(s)] of a string, as Go [int]s. *)
Definition len {A} (m : gmap string A) : Z := Z.of_nat (size m).
Definition strlen (s : string) : Z := Z.of_nat (String.length s).

(** The three declared values of the [MergeStrategy] enumeration. *)
Inductive MergeStrategy : Type :=
| MergeStrategyOverride
| MergeStrategyPreserve
| MergeStrategyError.

(** The [Provider] interface. [Load] returns Go's pair (mapping,
    error). A provider instance answers by the path alone: the context
    argument and the world the provider reads from are not modelled. *)
Record Provider : Type := {
  Provider_Name : string;
  Provider_Load : string -> gmap string string * option error;
  Provider_Validate : string -> option error
}.

(** The [Validator] and [Exporter] interfaces (one method each). *)
Definition Validator : Type := gmap string string -> option error.
Definition Exporter : Type := gmap string string -> string -> option error.

(** A [Client] whose [providers] map is allocated, as [New] makes it. *)
Record Client : Type := {
  providers : gmap string Provider;
  validator : option Validator;
  exporter : option Exporter
}.

(** A struct of type [Client] as a caller may hold one: made by [New]
    (and changed by the methods since), or written as a literal, whose
    [providers] is the nil map; the zero value is
    [ProvidersNil None None]. *)
Inductive ClientValue : Type :=
| ProvidersAllocated (c : Client)
| ProvidersNil (v : option Validator) (e : option Exporter).

Definition New : Client :=
  {| providers := ∅; validator := None; exporter := None |}.

(** The body of [AddProvider] on an allocated map. *)
Definition AddProvider_allocated (c : Client) (name : string)
    (provider : Provider) : Client :=
  if MaxProviders <=? len (providers c) then c
  else {| providers := <[name := provider]> (providers c);
          validator := validator c;
          exporter := exporter c |}.

(** [AddProvider] returns nothing; it leaves the client changed, or
    panics. *)
Inductive AddProviderOutcome : Type :=
| AddProviderReturns (c : Client)
| AddProviderPanics.

(** [Client.AddProvider]. The nil map has length 0, so the guard lets
    the write through, and a write to a nil map panics. *)
Definition AddProvider (c : ClientValue) (name : string) (provider : Provider)
  : AddProviderOutcome :=
  match c with
  | ProvidersAllocated c =>
      AddProviderReturns (AddProvider_allocated c name provider)
  | ProvidersNil _ _ => AddProviderPanics
  end.

Definition SetValidator (c : Client) (v : Validator) : Client :=
  {| providers := providers c; validator := Some v; exporter := exporter c |}.

Definition SetExporter (c : Client) (e : Exporter) : Client :=
  {| providers := providers c; validator := validator c; exporter := Some e |}.

Record LoadOptions : Type := {
  Sources : list string;
  Schema : string;
  Strategy : MergeStrategy
}.

Record SourceInfo : Type := {
  SI_Name : string;
  SI_Provider : string;
  SI_KeyCount : Z
}.

(** An [Environment] whose [Data] map is allocated, as [Load] builds
    it. [env_client] is the client that loaded it, as it was when
    [Load] ran: the Go field is a pointer to that client, and nothing
    here reads the client's later state through it. *)
Record Environment : Type := {
  Data : gmap string string;
  EnvSources : list SourceInfo;
  env_client : Client
}.

(** A struct of type [Environment] as a caller may hold one: [Data] is
    an exported field of an exported struct, so besides the
    environments with an allocated map there are those whose [Data] is
    nil. The zero value [&Environment{}] is [DataNil [] None]; its
    client pointer is nil too. [DataAllocated e] is the struct with the
    fields of [e]; neither [Set] nor any method that reads [Data] looks
    at the client pointer. *)
Inductive EnvironmentValue : Type :=
| DataAllocated (e : Environment)
| DataNil (sources : list SourceInfo) (c : option Client).

(** Calls made on provider instances, in the order they are made. *)
Inductive call : Type :=
| CallValidate (providerName source : string)
| CallLoad (providerName source : string).

(** [parseSource]. *)
Definition parseSource (source : string) : string * string :=
  match SplitN source ":" SourceProviderParts with
  | [p0; p1] => (p0, p1)
  | _ => (DefaultProviderName, source)
  end.

Section Engine.
(** The order in which a [range] over a map yields its entries. *)
Variable range_order : gmap string string -> list (string * string).

(** The body of the [for key, value := range source] loop of
    [mergeConfiguration], over the entries still to visit. The
    target is returned as the loop left it, also on an error. *)
Fixpoint mergeEntries (target : gmap string string)
    (entries : list (string * string)) (strategy : MergeStrategy)
  : gmap string string * option error :=
  match entries with
  | [] => (target, None)
  | (key, value) :: rest =>
      match target !! key with
      | Some existingValue =>
          match strategy with
          | MergeStrategyError =>
              (target,
               Some (Errorf ("duplicate key found: " +:+ key
                             +:+ " (existing: " +:+ existingValue
                             +:+ ", new: " +:+ value +:+ ")")))
          | MergeStrategyPreserve => mergeEntries target rest strategy
          | MergeStrategyOverride =>
              mergeEntries (<[key := value]> target) rest strategy
          end
      | None => mergeEntries (<[key := value]> target) rest strategy
      end
  end.

Definition mergeConfiguration (target source : gmap string string)
    (strategy : MergeStrategy) : gmap string string * option error :=
  mergeEntries target (range_order source) strategy.

(** [loadFromSource]: the environment as the call leaves it, the
    returned error, and the provider calls made. *)
Definition loadFromSource (c : Client) (source : string)
    (env : Environment) (strategy : MergeStrategy)
  : Environment * option error * list call :=
  let '(providerName, actualSource) := parseSource source in
  match providers c !! providerName with
  | None =>
      (env, Some (Errorf ("provider " +:+ providerName +:+ " not found")), [])
  | Some provider =>
      match Provider_Validate provider actualSource with
      | Some validateErr =>
          (env,
           Some (Errorw ("source validation failed for " +:+ source +:+ ": ")
                   validateErr),
           [CallValidate providerName actualSource])
      | None =>
          let calls := [CallValidate providerName actualSource;
                        CallLoad providerName actualSource] in
          match Provider_Load provider actualSource with
          | (_, Some err) =>
              (env,
               Some (Errorw ("failed to load from provider " +:+ providerName
                             +:+ ": ") err),
               calls)
          | (config, None) =>
              let originalSize := len (Data env) in
              match mergeConfiguration (Data env) config strategy with
              | (data, Some err) =>
                  ({| Data := data; EnvSources := EnvSources env;
                      env_client := env_client env |},
                   Some err, calls)
              | (data, None) =>
                  ({| Data := data;
                      EnvSources :=
                        (EnvSources env ++
                           [ {| SI_Name := source;
                                SI_Provider := providerName;
                                SI_KeyCount := len data - originalSize |} ])%list;
                      env_client := env_client env |},
                   None, calls)
              end
          end
      end
  end.

(** The [for _, source := range options.Sources] loop of [Load]. It
    stops at the first source that fails and returns the wrapped
    error. *)
Fixpoint loadSources (c : Client) (sources : list string)
    (env : Environment) (strategy : MergeStrategy)
  : Environment * option error * list call :=
  match sources with
  | [] => (env, None, [])
  | source :: rest =>
      match loadFromSource c source env strategy with
      | (env', Some err, calls) =>
          (env',
           Some (Errorw ("failed to load from source " +:+ source +:+ ": ")
                   err),
           calls)
      | (env', None, calls) =>
          let '(env'', err, calls') := loadSources c rest env' strategy in
          (env'', err, (calls ++ calls')%list)
      end
  end.

(** [Client.Load]: Go's two results and the provider calls made. *)
Definition Load (c : Client) (options : LoadOptions)
  : option Environment * option error * list call :=
  match Sources options with
  | [] => (None, Some (Errorf "no sources specified"), [])
  | _ :: _ =>
      let env0 := {| Data := ∅; EnvSources := []; env_client := c |} in
      match loadSources c (Sources options) env0 (Strategy options) with
      | (_, Some err, calls) => (None, Some err, calls)
      | (env, None, calls) =>
          match
            match validator c with
            | Some v => v (Data env)
            | None => None
            end
          with
          | Some err =>
              (None, Some (Errorw "validation failed: " err), calls)
          | None =>
              if MaxEnvironmentKeys <? len (Data env) then
                (None,
                 Some (Errorf ("too many environment keys: "
                               +:+ fmt_d (len (Data env)) +:+ " > "
                               +:+ fmt_d MaxEnvironmentKeys)),
                 calls)
              else (Some env, None, calls)
          end
      end
  end.
End Engine.

Definition Get (e : Environment) (key : string) : string * bool :=
  match Data e !! key with
  | Some value => (value, true)
  | None => ("", false)
  end.

(** [Set] returns nothing; it leaves the environment changed, or
    panics. *)
Inductive SetOutcome : Type :=
| SetReturns (e : Environment)
| SetPanics.

(** [Environment.Set]: the one statement [e.Data[key] = value], which
    panics when [e.Data] is nil. *)
Definition Set_ (e : EnvironmentValue) (key value : string) : SetOutcome :=
  match e with
  | DataAllocated e =>
      SetReturns {| Data := <[key := value]> (Data e);
                    EnvSources := EnvSources e;
                    env_client := env_client e |}
  | DataNil _ _ => SetPanics
  end.

Definition Size (e : Environment) : Z := len (Data e).

Definition IsEmpty (e : Environment) : bool := len (Data e) =? 0.

(** [Environment.Keys]: the keys in the order the [range] yields them. *)
Definition Keys (range_order : gmap string string -> list (string * string))
    (e : Environment) : list string :=
  (range_order (Data e)).*1.

End client.

(** ** Package [registry] *)
Module registry.
Import GoErrors GoStrings.

Definition MaxProviders : Z := 100.
Definition DefaultProviderPriority : Z := 50.
Definition HighPriority : Z := 10.
Definition LowPriority : Z := 90.

(** Values of Go's [interface{}] found in a provider configuration. *)
Inductive any : Type :=
| AnyNil
| AnyString (s : string)
| AnyInt (n : Z)
| AnyBool (b : bool).

Definition ProviderFactory : Type :=
  gmap string any -> option client.Provider * option error.

(** [Factory] is a Go func value: [None] is the [nil] func. *)
Record ProviderInfo : Type := {
  Name : string;
  Aliases : list string;
  Factory : option ProviderFactory;
  Priority : Z;
  Description : string;
  SupportedSources : list string;
  RequiredConfig : list string;
  OptionalConfig : list string
}.

(** The Go map [providers] holds the [*ProviderInfo] the caller
    passed, not a copy. An entry here is the content of that struct as
    [Register] left it; a struct that its caller writes to after
    registering it is outside this model. The keys of both maps do not
    depend on it: each call computes them from the field values it
    reads when it runs. Both maps are allocated, as [NewRegistry]
    makes them. *)
Record Registry : Type := {
  providers : gmap string ProviderInfo;
  aliases : gmap string string
}.

Definition NewRegistry : Registry := {| providers := ∅; aliases := ∅ |}.

(** [info.Priority = DefaultProviderPriority] when it was left at 0. *)
Definition withDefaultPriority (info : ProviderInfo) : ProviderInfo :=
  if Priority info =? 0 then
    {| Name := Name info; Aliases := Aliases info; Factory := Factory info;
       Priority := DefaultProviderPriority;
       Description := Description info;
       SupportedSources := SupportedSources info;
       RequiredConfig := RequiredConfig info;
       OptionalConfig := OptionalConfig info |}
  else info.

(** The [for _, alias := range info.Aliases] loop of [Register], run
    on the registry in which [name] has just been stored. *)
Fixpoint registerAliases (r : Registry) (name : string)
    (rest : list string) : Registry * option error :=
  match rest with
  | [] => (r, None)
  | alias :: rest' =>
      let alias := TrimSpace alias in
      if String.eqb alias "" then registerAliases r name rest'
      else
        match providers r !! alias with
        | Some _ =>
            (r, Some (Errorf ("alias " +:+ alias
                              +:+ " conflicts with existing provider")))
        | None =>
            match aliases r !! alias with
            | Some _ =>
                (r, Some (Errorf ("alias " +:+ alias
                                  +:+ " already registered")))
            | None =>
                registerAliases
                  {| providers := providers r;
                     aliases := <[alias := name]> (aliases r) |}
                  name rest'
            end
        end
  end.

(** [Registry.Register]: the registry after the call and the error.
    The argument is a pointer: [None] is [nil]. *)
Definition Register (r : Registry) (info : option ProviderInfo)
  : Registry * option error :=
  match info with
  | None => (r, Some (Errorf "provider info cannot be nil"))
  | Some info =>
      if String.eqb (TrimSpace (Name info)) "" then
        (r, Some (Errorf "provider name cannot be empty"))
      else
        match Factory info with
        | None => (r, Some (Errorf "provider factory cannot be nil"))
        | Some _ =>
            if MaxProviders <=? client.len (providers r) then
              (r, Some (Errorf ("registry is full (max "
                                +:+ fmt_d MaxProviders +:+ " providers)")))
            else
              match providers r !! Name info with
              | Some _ =>
                  (r, Some (Errorf ("provider " +:+ Name info
                                    +:+ " already registered")))
              | None =>
                  let info := withDefaultPriority info in
                  registerAliases
                    {| providers := <[Name info := info]> (providers r);
                       aliases := aliases r |}
                    (Name info) (Aliases info)
              end
        end
  end.

(** [Registry.Unregister]. *)
Definition Unregister (r : Registry) (name : string)
  : Registry * option error :=
  match providers r !! name with
  | None => (r, Some (Errorf ("provider " +:+ name +:+ " not found")))
  | Some info =>
      ({| providers := delete name (providers r);
          aliases := fold_left (fun m alias => delete alias m)
                       (Aliases info) (aliases r) |},
       None)
  end.

Definition resolveProviderName (r : Registry) (name : string) : string :=
  match aliases r !! name with
  | Some actualName => actualName
  | None => name
  end.

(** The loop of [validateConfig] over the required keys. *)
Fixpoint validateKeys (keys : list string) (config : gmap string any)
  : option error :=
  match keys with
  | [] => None
  | key :: rest =>
      match config !! key with
      | None =>
          Some (Errorf ("required configuration key missing: " +:+ key))
      | Some _ => validateKeys rest config
      end
  end.

Definition validateConfig (info : ProviderInfo) (config : gmap string any)
  : option error :=
  validateKeys (RequiredConfig info) config.

(** What a call does: it returns Go's two results, or it panics
    (calling a [nil] func value). *)
Inductive outcome : Type :=
| Returns (provider : option client.Provider) (err : option error)
| Panics.

(** [Registry.CreateProvider]. *)
Definition CreateProvider (r : Registry) (name : string)
    (config : gmap string any) : outcome :=
  let providerName := resolveProviderName r name in
  match providers r !! providerName with
  | None => Returns None (Some (Errorf ("provider " +:+ name +:+ " not found")))
  | Some info =>
      match validateConfig info config with
      | Some err =>
          Returns None (Some (Errorw "configuration validation failed: " err))
      | None =>
          match Factory info with
          | None => Panics
          | Some factory =>
              match factory config with
              | (_, Some err) =>
                  Returns None
                    (Some (Errorw ("failed to create provider " +:+ name
                                   +:+ ": ") err))
              | (provider, None) => Returns provider None
              end
          end
      end
  end.

(** [Registry.GetProvider]; the copy it returns has the same fields. *)
Definition GetProvider (r : Registry) (name : string)
  : option ProviderInfo * option error :=
  match providers r !! resolveProviderName r name with
  | None => (None, Some (Errorf ("provider " +:+ name +:+ " not found")))
  | Some info => (Some info, None)
  end.

Definition IsProviderRegistered (r : Registry) (name : string) : bool :=
  bool_decide (is_Some (providers r !! resolveProviderName r name)).

(** The two key spaces of the registry. *)
Definition names (r : Registry) : gset string := dom (providers r).
Definition aliasNames (r : Registry) : gset string := dom (aliases r).

End registry.

(** ** Vocabulary of the statements *)
Module Spec.
Import GoErrors GoStrings.

(** [hasByte c s]: the byte [c] occurs in [s]. *)
Fixpoint hasByte (c : ascii) (s : string) : bool :=
  match s with
  | EmptyString => false
  | String a s' => Ascii.eqb a c || hasByte c s'
  end.

(** The environment [Load] starts from. *)
Definition emptyEnvironment (c : client.Client) : client.Environment :=
  {| client.Data := ∅; client.EnvSources := []; client.env_client := c |}.

(** The client's validator, if any, accepts [data]. *)
Definition accepts (c : client.Client) (data : gmap string string) : Prop :=
  match client.validator c with
  | Some v => v data = None
  | None => True
  end.

(** The two provider calls of a source that passes validation. *)
Definition callsOf (source : string) : list client.call :=
  [client.CallValidate (client.parseSource source).1
     (client.parseSource source).2;
   client.CallLoad (client.parseSource source).1
     (client.parseSource source).2].

(** The text of the conflict error of the [Error] strategy. *)
Definition conflictMessage (key existingValue value : string) : string :=
  "duplicate key found: " +:+ key +:+ " (existing: " +:+ existingValue
  +:+ ", new: " +:+ value +:+ ")".

(** The ways a single source step can fail, for a client [c], the
    accumulated environment [env] and a source specifier: the provider
    is unknown, it rejects the path, it fails to load, or (under the
    [Error] strategy) it yields a key the accumulator already has. *)
Inductive sourceStepFails (c : client.Client) (env : client.Environment)
    (strategy : client.MergeStrategy) (source : string) : Prop :=
| UnknownProvider :
    client.providers c !! (client.parseSource source).1 = None ->
    sourceStepFails c env strategy source
| ValidateFailure provider err :
    client.providers c !! (client.parseSource source).1 = Some provider ->
    client.Provider_Validate provider (client.parseSource source).2 = Some err ->
    sourceStepFails c env strategy source
| LoadFailure provider config err :
    client.providers c !! (client.parseSource source).1 = Some provider ->
    client.Provider_Validate provider (client.parseSource source).2 = None ->
    client.Provider_Load provider (client.parseSource source).2
      = (config, Some err) ->
    sourceStepFails c env strategy source
| MergeConflict provider config key :
    client.providers c !! (client.parseSource source).1 = Some provider ->
    client.Provider_Validate provider (client.parseSource source).2 = None ->
    client.Provider_Load provider (client.parseSource source).2
      = (config, None) ->
    strategy = client.MergeStrategyError ->
    is_Some (config !! key) ->
    is_Some (client.Data env !! key) ->
    sourceStepFails c env strategy source.

(** A call on the registry that changes it. *)
Inductive operation : Type :=
| OpRegister (info : option registry.ProviderInfo)
| OpUnregister (name : string).

Definition applyOperation (r : registry.Registry) (op : operation)
  : registry.Registry * option error :=
  match op with
  | OpRegister info => registry.Register r info
  | OpUnregister name => registry.Unregister r name
  end.

(** The registry after a sequence of such calls. *)
Definition run (ops : list operation) (r : registry.Registry)
  : registry.Registry :=
  fold_left (fun r op => (applyOperation r op).1) ops r.

(** The error returned by each call of the sequence. *)
Fixpoint runErrors (ops : list operation) (r : registry.Registry)
  : list (option error) :=
  match ops with
  | [] => []
  | op :: rest =>
      (applyOperation r op).2 :: runErrors rest (applyOperation r op).1
  end.

End Spec.

(** ** Concrete clients and registries used as test inputs *)
Module Examples.
Import GoErrors GoStrings Spec.

(** A provider that accepts every path and always yields [config]. *)
Definition constProvider (name : string) (config : gmap string string)
  : client.Provider :=
  {| client.Provider_Name := name;
     client.Provider_Load := fun _ => (config, None);
     client.Provider_Validate := fun _ => None |}.

(** The client of the design document's examples: provider [a] yields
    [{"K": "1"}], provider [b] yields [{"K": "2"}]. *)
Definition clientAB : client.Client :=
  client.AddProvider_allocated
    (client.AddProvider_allocated client.New "a"
       (constProvider "a" {["K" := "1"]}))
    "b" (constProvider "b" {["K" := "2"]}).

Definition optionsAB (strategy : client.MergeStrategy) : client.LoadOptions :=
  {| client.Sources := ["a:x"; "b:y"];
     client.Schema := "";
     client.Strategy := strategy |}.

(** The environment left by the first source of [optionsAB]. *)
Definition envA : client.Environment :=
  {| client.Data := {["K" := "1"]};
     client.EnvSources :=
       [ {| client.SI_Name := "a:x"; client.SI_Provider := "a";
            client.SI_KeyCount := 1 |} ];
     client.env_client := clientAB |}.

Fixpoint repeatByte (c : ascii) (n : nat) : string :=
  match n with
  | O => EmptyString
  | S n' => String c (repeatByte c n')
  end.

(** A key of 257 bytes and a value of 4097 bytes. *)
Definition longKey : string := repeatByte "A" 257.
Definition longValue : string := repeatByte "v" 4097.

Definition clientLong : client.Client :=
  {| client.providers :=
       {["default" := constProvider "default" {[longKey := longValue]}]};
     client.validator := None;
     client.exporter := None |}.

Definition optionsLong : client.LoadOptions :=
  {| client.Sources := ["long.env"];
     client.Schema := "";
     client.Strategy := client.MergeStrategyOverride |}.

(** A mapping with exactly [n] keys: the decimal numerals below [n]. *)
Definition numberedEntries (n : nat) : list (string * string) :=
  (fun i : nat => (pretty i, "")) <$> seq 0 n.

Definition numberedMap (n : nat) : gmap string string :=
  list_to_map (numberedEntries n).

Definition clientNumbered (n : nat) : client.Client :=
  {| client.providers := {["default" := constProvider "default" (numberedMap n)]};
     client.validator := None;
     client.exporter := None |}.

Definition optionsNumbered : client.LoadOptions :=
  {| client.Sources := ["numbered.env"];
     client.Schema := "";
     client.Strategy := client.MergeStrategyOverride |}.

Definition optionsGhost : client.LoadOptions :=
  {| client.Sources := ["a:x"; "ghost:path"; "b:y"];
     client.Schema := "";
     client.Strategy := client.MergeStrategyOverride |}.

(** Registry entries: a factory that builds a provider and one that
    fails, as the Kubernetes and Vault factories may. *)
Definition workingFactory (name : string) : registry.ProviderFactory :=
  fun _ => (Some (constProvider name ∅), None).


Definition providerInfo (name : string) (aliases : list string)
    (factory : registry.ProviderFactory) : registry.ProviderInfo :=
  {| registry.Name := name;
     registry.Aliases := aliases;
     registry.Factory := Some factory;
     registry.Priority := 0;
     registry.Description := "";
     registry.SupportedSources := [];
     registry.RequiredConfig := [];
     registry.OptionalConfig := [] |}.

(** A registry holding the provider [a] alone. *)
Definition registryA : registry.Registry :=
  (registry.Register registry.NewRegistry
     (Some (providerInfo "a" [] (workingFactory "a")))).1.

(** A second provider [b] whose last alias is the name [a]. *)
Definition infoB : registry.ProviderInfo :=
  providerInfo "b" ["x"; "a"] (workingFactory "b").

(** Provider [a] with alias [b], then a provider named [b]. *)
Definition registerAliasThenName : list operation :=
  [ OpRegister (Some (providerInfo "a" ["b"] (workingFactory "a")));
    OpRegister (Some (providerInfo "b" [] (workingFactory "b"))) ].

(** Provider [a] with the alias [b] written with blanks around it, its
    removal, then the providers [b] (alias [a]) and [a] again. *)
Definition registerAcrossUnregister : list operation :=
  [ OpRegister (Some (providerInfo "a" [" b "] (workingFactory "a")));
    OpUnregister "a";
    OpRegister (Some (providerInfo "b" ["a"] (workingFactory "b")));
    OpRegister (Some (providerInfo "a" [] (workingFactory "a"))) ].


End Examples.

(** ** Package [validator]: the rule-based and the composite validator *)
Module validator.
Import GoErrors GoStrings.

Definition MaxConfigKeys : Z := 1000.
Definition MaxKeyLength : Z := 256.
Definition MaxValueLength : Z := 4096.

(** The bytes a key may not hold: blank, tab, LF, CR and the equals sign. *)
Definition invalidKeyChars : string :=
  String " " (String (byte 9) (String (byte 10) (String (byte 13) "="))).

(** [validateKey]. *)
Definition validateKey (key : string) : option error :=
  if String.eqb (TrimSpace key) "" then
    Some (Errorf "key cannot be empty")
  else if MaxKeyLength <? client.strlen key then
    Some (Errorf ("key too long: " +:+ fmt_d (client.strlen key) +:+ " > "
                  +:+ fmt_d MaxKeyLength))
  else if ContainsAny key invalidKeyChars then
    Some (Errorf "key contains invalid characters")
  else None.

(** [validateValue]; the key is not looked at. *)
Definition validateValue (_ value : string) : option error :=
  if MaxValueLength <? client.strlen value then
    Some (Errorf ("value too long: " +:+ fmt_d (client.strlen value) +:+ " > "
                  +:+ fmt_d MaxValueLength))
  else None.

(** The [ValidationRule] interface and the [CustomValidator] that holds
    a list of them. *)
Record ValidationRule : Type := {
  Rule_Name : string;
  Rule_Validate : string -> string -> option error
}.

Record CustomValidator : Type := { rules : list ValidationRule }.

Definition NewCustomValidator (rules : list ValidationRule) : CustomValidator :=
  {| rules := rules |}.

(** The [for key, value := range config] loop of
    [CustomValidator.Validate]. *)
Fixpoint validateEntries (entries : list (string * string)) : option error :=
  match entries with
  | [] => None
  | (key, value) :: rest =>
      match validateKey key with
      | Some err => Some (Errorw ("invalid key " +:+ key +:+ ": ") err)
      | None =>
          match validateValue key value with
          | Some err =>
              Some (Errorw ("invalid value for key " +:+ key +:+ ": ") err)
          | None => validateEntries rest
          end
      end
  end.

(** [CustomValidator.Validate]. The receiver's rules are not read. *)
Definition CustomValidator_Validate
    (range_order : gmap string string -> list (string * string))
    (v : CustomValidator) (config : gmap string string) : option error :=
  if MaxConfigKeys <? client.len config then
    Some (Errorf ("too many configuration keys: " +:+ fmt_d (client.len config)
                  +:+ " > " +:+ fmt_d MaxConfigKeys))
  else validateEntries (range_order config).

(** [CompositeValidator]: its validators, in the order given. *)
Definition CompositeValidator : Type := list client.Validator.

Definition NewCompositeValidator (validators : list client.Validator)
  : CompositeValidator := validators.

(** [CompositeValidator.Validate]. *)
Fixpoint CompositeValidator_Validate (v : CompositeValidator)
    (config : gmap string string) : option error :=
  match v with
  | [] => None
  | validator :: rest =>
      match validator config with
      | Some err => Some err
      | None => CompositeValidator_Validate rest config
      end
  end.

End validator.

(** ** Package [local]: the check of a loaded file's content *)
Module local.
Import GoErrors GoStrings.

Definition MaxLineLength : Z := 8192.

(** The loop of [validateConfiguration]. *)
Fixpoint validateEntries (entries : list (string * string)) : option error :=
  match entries with
  | [] => None
  | (key, value) :: rest =>
      if String.eqb (TrimSpace key) "" then
        Some (Errorf "empty key is not allowed")
      else if MaxLineLength <? client.strlen value then
        Some (Errorf ("value too long for key " +:+ key +:+ ": "
                      +:+ fmt_d (client.strlen value) +:+ " > "
                      +:+ fmt_d MaxLineLength))
      else if ContainsAny key validator.invalidKeyChars then
        Some (Errorf ("key contains invalid characters: " +:+ key))
      else validateEntries rest
  end.

(** [Provider.validateConfiguration]. *)
Definition validateConfiguration
    (range_order : gmap string string -> list (string * string))
    (config : gmap string string) : option error :=
  validateEntries (range_order config).

End local.

(** ** Package [kubernetes]: the stub provider *)
Module kubernetes.
Import GoErrors GoStrings.

Definition ProviderName : string := "kubernetes".
Definition SecretType : string := "secret".
Definition ConfigMapType : string := "configmap".
Definition DefaultNamespace : string := "default".

Record Provider : Type := { kubeconfig : string; namespace : string }.

Definition NewProvider : Provider * option error :=
  ({| kubeconfig := ""; namespace := DefaultNamespace |}, None).

Definition NewProviderWithConfig (_ namespace : string)
  : Provider * option error :=
  ({| kubeconfig := "";
      namespace := if String.eqb namespace "" then DefaultNamespace
                   else namespace |},
   None).

Definition Name (p : Provider) : string := ProviderName.

(** [Provider.parseSource]: namespace, resource type, resource name and
    the error. *)
Definition parseSource (p : Provider) (source : string)
  : string * string * string * option error :=
  if String.eqb (TrimSpace source) "" then
    ("", "", "", Some (Errorf "source cannot be empty"))
  else
    match Split source "/" with
    | [p0] => (namespace p, SecretType, p0, None)
    | [p0; p1] => (namespace p, p0, p1, None)
    | [p0; p1; p2] => (p0, p1, p2, None)
    | _ =>
        ("", "", "",
         Some (Errorf ("invalid source format: " +:+ source
                       +:+ " (expected: [namespace/]resource-type/resource-name)")))
    end.

(** [Provider.Load]: the mapping is [nil] in every case. *)
Definition Load (p : Provider) (source : string)
  : gmap string string * option error :=
  match parseSource p source with
  | (_, _, _, Some err) => (∅, Some err)
  | (namespace, resourceType, resourceName, None) =>
      (∅,
       Some (Errorf ("kubernetes provider is not yet implemented (would load "
                     +:+ namespace +:+ "/" +:+ resourceType +:+ "/"
                     +:+ resourceName +:+ ")")))
  end.

Definition Validate (p : Provider) (source : string) : option error :=
  (parseSource p source).2.

Definition SetNamespace (p : Provider) (namespace : string) : Provider :=
  {| kubeconfig := kubeconfig p;
     namespace := if String.eqb namespace "" then DefaultNamespace
                  else namespace |}.

Definition IsEnabled (p : Provider) : bool :=
  negb (String.eqb (kubeconfig p) "").

(** The provider seen through the [client.Provider] interface. *)
Definition asProvider (p : Provider) : client.Provider :=
  {| client.Provider_Name := Name p;
     client.Provider_Load := Load p;
     client.Provider_Validate := Validate p |}.

End kubernetes.

(** ** Package [vault]: the stub provider *)
Module vault.
Import GoErrors GoStrings.

Definition ProviderName : string := "vault".
(** [30 * time.Second], in nanoseconds. *)
Definition DefaultTimeout : Z := 30 * 1000000000.
Definition DefaultMaxRetries : Z := 3.
Definition DefaultVaultAddr : string := "http://127.0.0.1:8200".
Definition DefaultMountPath : string := "secret".

Record Provider : Type := {
  mountPath : string;
  timeout : Z;
  maxRetries : Z;
  enabled : bool;
  address : string
}.

Definition NewProvider : Provider * option error :=
  ({| mountPath := "secret"; timeout := DefaultTimeout;
      maxRetries := DefaultMaxRetries; enabled := false; address := "" |},
   None).

(** The three arguments (address, token, mount path) are not used. *)
Definition NewProviderWithConfig (_ _ _ : string) : Provider * option error :=
  ({| mountPath := DefaultMountPath; timeout := 0; maxRetries := 0;
      enabled := false; address := DefaultVaultAddr |},
   None).

Definition Name (p : Provider) : string := ProviderName.

Definition Validate (p : Provider) (source : string) : option error :=
  if negb (enabled p) then
    Some (Errorf "vault provider is not yet implemented")
  else if String.eqb (TrimSpace source) "" then
    Some (Errorf "source path cannot be empty")
  else if Contains source ".." then
    Some (Errorf ("invalid path (contains ..): " +:+ source))
  else None.

(** [Provider.Load]: the mapping is [nil] in every case. *)
Definition Load (p : Provider) (source : string)
  : gmap string string * option error :=
  match Validate p source with
  | Some err => (∅, Some err)
  | None =>
      (∅,
       Some (Errorf ("vault provider is not yet implemented (would load from: "
                     +:+ source +:+ ")")))
  end.

Definition asProvider (p : Provider) : client.Provider :=
  {| client.Provider_Name := Name p;
     client.Provider_Load := Load p;
     client.Provider_Validate := Validate p |}.

End vault.

(** ** Package [providers]: the registration of the built-in providers *)
Module providers.
Import GoErrors GoStrings.

(** The config value under [key] when it is a string. *)
Definition stringOption (config : gmap string registry.any) (key : string)
  : option string :=
  match config !! key with
  | Some (registry.AnyString s) => Some s
  | _ => None
  end.

Section Local.
(** [local.NewProviderWithBase] as a client provider: the local
    provider reads the file system, which is outside this model. *)
Variable NewProviderWithBase : string -> client.Provider.

Definition localInfo : registry.ProviderInfo :=
  {| registry.Name := "local";
     registry.Aliases := ["file"; "fs"; "filesystem"];
     registry.Factory :=
       Some (fun config =>
               (Some (NewProviderWithBase
                        (default "." (stringOption config "base_path"))),
                None));
     registry.Priority := registry.HighPriority;
     registry.Description :=
       "Load configuration from local files (.env, JSON, YAML)";
     registry.SupportedSources :=
       [".env"; "path/to/.env"; "config.json"; "config.yaml"];
     registry.RequiredConfig := [];
     registry.OptionalConfig := ["base_path"] |}.

Definition k8sInfo : registry.ProviderInfo :=
  {| registry.Name := "kubernetes";
     registry.Aliases := ["k8s"; "kube"];
     registry.Factory :=
       Some (fun config =>
               let '(p, err) :=
                 kubernetes.NewProviderWithConfig
                   (default "" (stringOption config "kubeconfig"))
                   (default "" (stringOption config "namespace")) in
               (Some (kubernetes.asProvider p), err));
     registry.Priority := registry.DefaultProviderPriority;
     registry.Description :=
       "Load configuration from Kubernetes Secrets and ConfigMaps";
     registry.SupportedSources :=
       ["namespace/secret/secret-name"; "namespace/configmap/config-name";
        "default/secret/app-secrets"];
     registry.RequiredConfig := [];
     registry.OptionalConfig := ["kubeconfig"; "context"; "namespace"] |}.

Definition vaultInfo : registry.ProviderInfo :=
  {| registry.Name := "vault";
     registry.Aliases := ["hcvault"; "hashicorp-vault"];
     registry.Factory :=
       Some (fun config =>
               let '(p, err) :=
                 vault.NewProviderWithConfig
                   (default "" (stringOption config "address"))
                   (default "" (stringOption config "token"))
                   (default "" (stringOption config "mount_path")) in
               (Some (vault.asProvider p), err));
     registry.Priority := registry.DefaultProviderPriority;
     registry.Description := "Load secrets from HashiCorp Vault";
     registry.SupportedSources :=
       ["secret/data/app-config"; "kv/production/database";
        "auth/token/secrets"];
     registry.RequiredConfig := ["token"];
     registry.OptionalConfig := ["address"; "mount_path"; "version"] |}.

Definition initializeLocalProvider (r : registry.Registry)
  : registry.Registry * option error :=
  registry.Register r (Some localInfo).

Definition initializeKubernetesProvider (r : registry.Registry)
  : registry.Registry * option error :=
  registry.Register r (Some k8sInfo).

Definition initializeVaultProvider (r : registry.Registry)
  : registry.Registry * option error :=
  registry.Register r (Some vaultInfo).

(** [InitializeProviders] on the global registry [r]: the registry it
    leaves and the error. *)
Definition InitializeProviders (r : registry.Registry)
  : registry.Registry * option error :=
  match initializeLocalProvider r with
  | (r1, Some err) =>
      (r1, Some (Errorw "failed to initialize local provider: " err))
  | (r1, None) =>
      match initializeKubernetesProvider r1 with
      | (r2, Some err) =>
          (r2, Some (Errorw "failed to initialize kubernetes provider: " err))
      | (r2, None) =>
          match initializeVaultProvider r2 with
          | (r3, Some err) =>
              (r3, Some (Errorw "failed to initialize vault provider: " err))
          | (r3, None) => (r3, None)
          end
      end
  end.
End Local.

End providers.

(** ** Package [main]: the [load] command *)
Module cli.
Import GoErrors GoStrings.

Definition MaxSources : Z := 10.

(** The flags of the [load] command (package-level variables in Go). *)
Record LoadFlags : Type := {
  loadSources : list string;
  loadSchema : string;
  loadExport : string;
  loadMergeStrategy : string;
  loadOutputDir : string;
  loadDryRun : bool
}.

(** [validateLoadInputs]; [notExist path] stands for
    [os.IsNotExist] of the error of [os.Stat(path)]. *)
Definition validateLoadInputs (notExist : string -> bool) (f : LoadFlags)
  : option error :=
  let n := Z.of_nat (length (loadSources f)) in
  if n =? 0 then Some (Errorf "at least one source must be specified")
  else if MaxSources <? n then
    Some (Errorf ("too many sources: " +:+ fmt_d n +:+ " > "
                  +:+ fmt_d MaxSources))
  else if negb (existsb (String.eqb (loadMergeStrategy f))
                  ["override"; "preserve"; "error"]) then
    Some (Errorf ("invalid merge strategy: " +:+ loadMergeStrategy f
                  +:+ " (valid: [override preserve error])"))
  else if negb (String.eqb (loadSchema f) "") && notExist (loadSchema f) then
    Some (Errorf ("schema file not found: " +:+ loadSchema f))
  else None.

(** [parseMergeStrategy]. *)
Definition parseMergeStrategy (strategy : string)
  : client.MergeStrategy * option error :=
  if String.eqb strategy "override" then (client.MergeStrategyOverride, None)
  else if String.eqb strategy "preserve" then (client.MergeStrategyPreserve, None)
  else if String.eqb strategy "error" then (client.MergeStrategyError, None)
  else (client.MergeStrategyOverride,
        Some (Errorf ("unknown merge strategy: " +:+ strategy))).

(** [setupProviders]; [localProvider] is the instance
    [local.NewProviderWithBase(".")], and [envClient] the client that
    [runLoadCommand] has just made with [client.New]. *)
Definition setupProviders (localProvider : client.Provider)
    (envClient : client.Client) : client.Client :=
  client.AddProvider_allocated
    (client.AddProvider_allocated envClient "local" localProvider)
    client.DefaultProviderName localProvider.

End cli.

(** ** Vocabulary of the further statements *)
Module Spec2.
Import GoErrors GoStrings Spec.

(** What [validator.validateKey] asks of a key. *)
Definition validKey (key : string) : Prop :=
  TrimSpace key <> ""
  /\ client.strlen key <= validator.MaxKeyLength
  /\ ContainsAny key validator.invalidKeyChars = false.

(** What [local.validateConfiguration] asks of an entry. *)
Definition validLocalEntry (key value : string) : Prop :=
  TrimSpace key <> ""
  /\ client.strlen value <= local.MaxLineLength
  /\ ContainsAny key validator.invalidKeyChars = false.

(** The number of occurrences of the byte [c] in [s]. *)
Fixpoint countByte (c : ascii) (s : string) : nat :=
  match s with
  | EmptyString => O
  | String a s' => (if Ascii.eqb a c then 1 else 0) + countByte c s'
  end.

(** A sequence of [AddProvider] calls on one client, which starts with
    an allocated map; a panic ends it. *)
Fixpoint addAll (l : list (string * client.Provider)) (c : client.Client)
  : client.AddProviderOutcome :=
  match l with
  | [] => client.AddProviderReturns c
  | np :: l' =>
      match client.AddProvider (client.ProvidersAllocated c) np.1 np.2 with
      | client.AddProviderReturns c' => addAll l' c'
      | client.AddProviderPanics => client.AddProviderPanics
      end
  end.

(** The sum of the recorded key counts. *)
Definition totalKeyCount (l : list client.SourceInfo) : Z :=
  foldr Z.add 0 (client.SI_KeyCount <$> l).


End Spec2.

(** ** Further test inputs *)
Module Examples2.
Import GoErrors GoStrings Spec Spec2 Examples.

(** The provider [local] with one alias written with blanks around it,
    and with two aliases written plainly. *)
Definition infoLocalBlank : registry.ProviderInfo :=
  providerInfo "local" [" file "] (workingFactory "local").

Definition infoLocalPlain : registry.ProviderInfo :=
  providerInfo "local" ["file"; "fs"] (workingFactory "local").

(** Provider [a] yields [{"K": "1"}], provider [c] yields [{"J": "3"}]. *)
Definition clientAC : client.Client :=
  client.AddProvider_allocated
    (client.AddProvider_allocated client.New "a"
       (constProvider "a" {["K" := "1"]}))
    "c" (constProvider "c" {["J" := "3"]}).

Definition envK : client.Environment :=
  {| client.Data := {["K" := "1"]};
     client.EnvSources := [];
     client.env_client := clientAC |}.


(** The client of the examples with a rule-based validator. *)
Definition clientValidated : client.Client :=
  client.SetValidator clientAB
    (validator.CustomValidator_Validate map_to_list
       (validator.NewCustomValidator [])).

(** A stand-in for [local.NewProviderWithBase]. *)
Definition localStub (basePath : string) : client.Provider :=
  constProvider "local" ∅.

End Examples2.

Import GoErrors GoStrings Spec.

(** * Source specifiers *)
Section ParseSource.
Local Arguments String.append !_ _ / : simpl nomatch.

Lemma substring_append_prefix (p r : string) :
  String.substring 0 (String.length p) (p +:+ r) = p.
Proof.
  induction p as [|a p IH]; simpl.
  - by destruct r.
  - by rewrite IH.
Qed.

Lemma substring_whole (r : string) :
  String.substring 0 (String.length r) r = r.
Proof. induction r as [|b r IH]; simpl; [done|]. by rewrite IH. Qed.

Lemma substring_skip (p r : string) (n m : nat) :
  String.substring (String.length p + n) m (p +:+ r) = String.substring n m r.
Proof. induction p as [|a p IH]; simpl; done. Qed.

Lemma length_append (p r : string) :
  String.length (p +:+ r) = (String.length p + String.length r)%nat.
Proof. induction p as [|a p IH]; simpl; [done|]. by rewrite IH. Qed.

Lemma prefix_colon (a : ascii) (s : string) :
  String.prefix ":" (String a s) = Ascii.eqb a ":".
Proof.
  cbn [String.prefix]. destruct (ascii_dec ":" a) as [<-|Hne].
  - by destruct s.
  - symmetry. apply Ascii.eqb_neq. congruence.
Qed.

(** [strings.Index(s, ":")] finds the first colon. *)
Lemma Index_colon (s : string) :
  match Index s ":" with
  | None => hasByte ":" s = false
  | Some m =>
      exists p r, s = p +:+ String ":" r /\ hasByte ":" p = false
                  /\ m = String.length p
  end.
Proof.
  unfold Index. induction s as [|a s IH]; [done|].
  cbn [String.index hasByte]. rewrite prefix_colon.
  destruct (Ascii.eqb a ":") eqn:Ha; cbn [orb].
  - apply Ascii.eqb_eq in Ha as ->. by exists "", s.
  - destruct (String.index 0 ":" s) as [m|]; [|done].
    destruct IH as (p & r & -> & Hp & ->).
    exists (String a p), r. cbn [hasByte]. by rewrite Ha, Hp.
Qed.

(** C8. [parseSource] cuts the specifier at its first colon: a
    specifier without a colon goes to the provider ["default"] with the
    whole specifier as path, and [p:r] with no colon in [p] goes to the
    provider [p] with path [r]. Every specifier is of exactly one of the
    two forms. *)
Theorem parseSource_first_colon (s : string) :
  (hasByte ":" s = false /\ client.parseSource s = ("default", s))
  \/ (exists p r, s = p +:+ ":" +:+ r /\ hasByte ":" p = false
                  /\ client.parseSource s = (p, r)).
Proof.
  unfold client.parseSource, SplitN, client.SourceProviderParts.
  pose proof (Index_colon s) as H.
  destruct (Index s ":") as [m|] eqn:Hi.
  - right. destruct H as (p & r & -> & Hp & ->).
    exists p, r. split; [done|]. split; [done|].
    assert (Nat.min 1 (String.length (p +:+ String ":" r)) = 1%nat) as ->
      by (rewrite length_append; cbn [String.length]; lia).
    cbn [genSplit_loop]. rewrite Hi.
    rewrite substring_append_prefix, substring_skip, length_append.
    replace (String.length p + String.length (String ":" r)
             - (String.length p + String.length ":"))%nat
      with (String.length r) by (cbn [String.length]; lia).
    simpl. by rewrite substring_whole.
  - left. split; [done|].
    destruct (Nat.min 1 (String.length s)); cbn [genSplit_loop];
      by rewrite ?Hi.
Qed.

End ParseSource.

(** * Merging one source into the accumulator *)
Section Merge.
Import client.

Implicit Types (target source : gmap string string).
Implicit Types (entries : list (string * string)).

Lemma mergeEntries_override_step target key value entries :
  mergeEntries target ((key, value) :: entries) MergeStrategyOverride
  = mergeEntries (<[key := value]> target) entries MergeStrategyOverride.
Proof. simpl. by destruct (target !! key). Qed.

(** Under [Override] every entry is written: the source wins. *)
Lemma mergeEntries_override entries target :
  NoDup entries.*1 ->
  mergeEntries target entries MergeStrategyOverride
  = (list_to_map entries ∪ target, None).
Proof.
  revert target. induction entries as [|[key value] entries IH];
    intros target Hnd.
  - simpl. by rewrite (left_id_L ∅ (∪)).
  - rewrite mergeEntries_override_step.
    apply NoDup_cons in Hnd as [Hkey Hnd]. rewrite IH by done.
    rewrite list_to_map_cons, <- insert_union_l.
    by rewrite insert_union_r by by apply not_elem_of_list_to_map_1.
Qed.

(** Under [Preserve] only the keys the target lacks are written. *)
Lemma mergeEntries_preserve entries target :
  NoDup entries.*1 ->
  mergeEntries target entries MergeStrategyPreserve
  = (target ∪ list_to_map entries, None).
Proof.
  revert target. induction entries as [|[key value] entries IH];
    intros target Hnd.
  - simpl. by rewrite (right_id_L ∅ (∪)).
  - apply NoDup_cons in Hnd as [Hkey Hnd]. simpl.
    destruct (target !! key) as [existing|] eqn:Hlook.
    + rewrite IH by done. f_equal. apply map_eq. intros k.
      rewrite !lookup_union. destruct (decide (k = key)) as [->|Hne].
      * rewrite Hlook, lookup_insert_eq.
        by destruct (list_to_map entries !! key).
      * by rewrite lookup_insert_ne.
    + rewrite IH by done.
      by rewrite <- insert_union_l, insert_union_r.
Qed.

(** Under [Error] a source that shares no key with the target is
    added whole. *)
Lemma mergeEntries_error_disjoint entries target :
  NoDup entries.*1 ->
  (forall k, k ∈ entries.*1 -> target !! k = None) ->
  mergeEntries target entries MergeStrategyError
  = (list_to_map entries ∪ target, None).
Proof.
  revert target. induction entries as [|[key value] entries IH];
    intros target Hnd Hdisj.
  - simpl. by rewrite (left_id_L ∅ (∪)).
  - apply NoDup_cons in Hnd as [Hkey Hnd]. simpl.
    rewrite (Hdisj key) by (simpl; left).
    rewrite IH; [|done|].
    + rewrite <- insert_union_l.
      by rewrite insert_union_r by by apply not_elem_of_list_to_map_1.
    + intros k Hk. rewrite lookup_insert_ne; [|by intros ->].
      apply Hdisj. simpl. by right.
Qed.

(** Under [Error] a shared key stops the loop; the error quotes one
    shared key, the value the target had for it and the value of the
    source. *)
Lemma mergeEntries_error_conflict entries target :
  NoDup entries.*1 ->
  (exists k, k ∈ entries.*1 /\ is_Some (target !! k)) ->
  exists k existing value target',
    (k, value) ∈ entries /\ target !! k = Some existing
    /\ mergeEntries target entries MergeStrategyError
       = (target', Some (Errorf (conflictMessage k existing value))).
Proof.
  revert target. induction entries as [|[key value] entries IH];
    intros target Hnd (k0 & Hk0 & Hsome).
  - by apply elem_of_nil in Hk0.
  - apply NoDup_cons in Hnd as [Hkey Hnd]. simpl.
    destruct (target !! key) as [existing|] eqn:Hlook.
    + exists key, existing, value, target. split; [left|done].
    + assert (k0 ≠ key) as Hne.
      { intros ->. rewrite Hlook in Hsome. by destruct Hsome. }
      destruct (IH (<[key := value]> target) Hnd)
        as (k & existing & v & target' & Hin & Hex & Heq).
      { exists k0. simpl in Hk0. apply elem_of_cons in Hk0 as [?|?]; [done|].
        split; [done|]. by rewrite lookup_insert_ne. }
      exists k, existing, v, target'. split; [by right|]. split; [|done].
      rewrite lookup_insert_ne in Hex; [done|].
      intros <-. apply Hkey. apply list_elem_of_fmap. by exists (key, v).
Qed.

(** The same four facts for [mergeConfiguration], whatever order the
    [range] over the source takes. *)
Section Range.
Variable range_order : gmap string string -> list (string * string).
Hypothesis range_order_perm : forall m, range_order m ≡ₚ map_to_list m.

Lemma range_order_NoDup source : NoDup (range_order source).*1.
Proof. rewrite range_order_perm. apply NoDup_fst_map_to_list. Qed.

Lemma range_order_to_map source : list_to_map (range_order source) = source.
Proof.
  rewrite <- (list_to_map_to_list source) at 2.
  apply list_to_map_proper; [apply range_order_NoDup|apply range_order_perm].
Qed.

Lemma elem_of_range_order source k v :
  (k, v) ∈ range_order source <-> source !! k = Some v.
Proof. rewrite range_order_perm. apply elem_of_map_to_list. Qed.

Lemma mergeConfiguration_override target source :
  mergeConfiguration range_order target source MergeStrategyOverride
  = (source ∪ target, None).
Proof.
  unfold mergeConfiguration.
  rewrite mergeEntries_override by apply range_order_NoDup.
  by rewrite range_order_to_map.
Qed.

Lemma mergeConfiguration_preserve target source :
  mergeConfiguration range_order target source MergeStrategyPreserve
  = (target ∪ source, None).
Proof.
  unfold mergeConfiguration.
  rewrite mergeEntries_preserve by apply range_order_NoDup.
  by rewrite range_order_to_map.
Qed.

Lemma mergeConfiguration_error_disjoint target source :
  (forall k, is_Some (source !! k) -> target !! k = None) ->
  mergeConfiguration range_order target source MergeStrategyError
  = (source ∪ target, None).
Proof.
  intros Hdisj. unfold mergeConfiguration.
  rewrite mergeEntries_error_disjoint.
  - by rewrite range_order_to_map.
  - apply range_order_NoDup.
  - intros k Hk. apply Hdisj.
    apply list_elem_of_fmap in Hk as ([k' v] & -> & Hin).
    apply elem_of_range_order in Hin. by exists v.
Qed.

Lemma mergeConfiguration_error_conflict target source :
  (exists k, is_Some (source !! k) /\ is_Some (target !! k)) ->
  exists k existing value target',
    source !! k = Some value /\ target !! k = Some existing
    /\ mergeConfiguration range_order target source MergeStrategyError
       = (target', Some (Errorf (conflictMessage k existing value))).
Proof.
  intros (k0 & [v0 Hv0] & Hsome). unfold mergeConfiguration.
  destruct (mergeEntries_error_conflict (range_order source) target)
    as (k & existing & value & target' & Hin & Hex & Heq).
  - apply range_order_NoDup.
  - exists k0. split; [|done]. apply list_elem_of_fmap.
    exists (k0, v0). split; [done|]. by apply elem_of_range_order.
  - exists k, existing, value, target'.
    split; [by apply elem_of_range_order|done].
Qed.
End Range.

End Merge.

(** * The load pipeline *)
Section LoadPipeline.
Import client.

Variable range_order : gmap string string -> list (string * string).

Local Abbreviation loadFromSource := (loadFromSource range_order).
Local Abbreviation loadSources := (loadSources range_order).
Local Abbreviation mergeConfiguration := (mergeConfiguration range_order).
Local Abbreviation Load := (Load range_order).

(** A source step that goes through: what it returns. *)
Lemma loadFromSource_ok c source env strategy provider config data :
  providers c !! (parseSource source).1 = Some provider ->
  Provider_Validate provider (parseSource source).2 = None ->
  Provider_Load provider (parseSource source).2 = (config, None) ->
  mergeConfiguration (Data env) config strategy = (data, None) ->
  loadFromSource c source env strategy
  = ({| Data := data;
        EnvSources :=
          (EnvSources env ++
             [ {| SI_Name := source;
                  SI_Provider := (parseSource source).1;
                  SI_KeyCount := len data - len (Data env) |} ])%list;
        env_client := env_client env |},
     None, callsOf source).
Proof.
  unfold client.loadFromSource, callsOf.
  destruct (parseSource source) as [providerName actualSource]; simpl.
  intros -> -> -> ->. done.
Qed.

(** A source step that returns no error went through all four stages. *)
Lemma loadFromSource_ok_inv c source env strategy env' calls :
  loadFromSource c source env strategy = (env', None, calls) ->
  exists provider config data,
    providers c !! (parseSource source).1 = Some provider
    /\ Provider_Validate provider (parseSource source).2 = None
    /\ Provider_Load provider (parseSource source).2 = (config, None)
    /\ mergeConfiguration (Data env) config strategy = (data, None)
    /\ calls = callsOf source
    /\ env' = {| Data := data;
                 EnvSources :=
                   (EnvSources env ++
                      [ {| SI_Name := source;
                           SI_Provider := (parseSource source).1;
                           SI_KeyCount := len data - len (Data env) |} ])%list;
                 env_client := env_client env |}.
Proof.
  unfold client.loadFromSource, callsOf.
  destruct (parseSource source) as [providerName actualSource]; simpl.
  destruct (providers c !! providerName) as [provider|]; [|done].
  destruct (Provider_Validate provider actualSource) eqn:Hval; [done|].
  destruct (Provider_Load provider actualSource) as [config [e|]] eqn:Hload;
    [done|].
  destruct (mergeConfiguration (Data env) config strategy) as [data [e|]]
    eqn:Hmerge; [done|].
  intros [= <- <-]. by exists provider, config, data.
Qed.

(** The loop over a concatenation of source lists. *)
Lemma loadSources_app c pre post env strategy :
  loadSources c (pre ++ post)%list env strategy
  = match loadSources c pre env strategy with
    | (env1, Some err, calls) => (env1, Some err, calls)
    | (env1, None, calls) =>
        let '(env2, err, calls') := loadSources c post env1 strategy in
        (env2, err, (calls ++ calls')%list)
    end.
Proof.
  revert env. induction pre as [|source pre IH]; intros env; simpl.
  - by destruct (loadSources c post env strategy) as [[??]?].
  - destruct (loadFromSource c source env strategy) as [[env1 [e|]] calls];
      [done|].
    rewrite IH.
    destruct (loadSources c pre env1 strategy) as [[env2 [e|]] calls2];
      [done|].
    destruct (loadSources c post env2 strategy) as [[env3 err] calls3].
    by rewrite (assoc_L (++)).
Qed.

(** The loop stops at the first source whose step fails. *)
Lemma loadSources_error_stops c pre source post env strategy env1 calls1
    env2 err calls2 :
  loadSources c pre env strategy = (env1, None, calls1) ->
  loadFromSource c source env1 strategy = (env2, Some err, calls2) ->
  loadSources c (pre ++ source :: post)%list env strategy
  = (env2,
     Some (Errorw ("failed to load from source " +:+ source +:+ ": ") err),
     (calls1 ++ calls2)%list).
Proof.
  intros Hpre Hsrc. rewrite loadSources_app, Hpre. simpl. by rewrite Hsrc.
Qed.

End LoadPipeline.

(** * Properties of the load pipeline *)
Section LoadProperties.
Import client.

Variable range_order : gmap string string -> list (string * string).
Hypothesis range_order_perm : forall m, range_order m ≡ₚ map_to_list m.

Local Abbreviation loadFromSource := (loadFromSource range_order).
Local Abbreviation loadSources := (loadSources range_order).
Local Abbreviation mergeConfiguration := (mergeConfiguration range_order).
Local Abbreviation Load := (Load range_order).

Lemma len_union_subseteq (source target : gmap string string) :
  dom source ⊆ dom target -> len (source ∪ target) = len target.
Proof.
  intros Hsub. unfold len. f_equal.
  rewrite <- !size_dom, dom_union_L. f_equal.
  by apply subseteq_union_1_L.
Qed.

(** C7. The [KeyCount] recorded for a source that was processed is the
    size of the accumulator after the merge minus its size before. It
    is not the number of keys of the source: under [Override] a source
    whose keys are all present already replaces their values and is
    recorded with [KeyCount] zero. *)
Theorem loadFromSource_KeyCount_net_growth c source env strategy env' calls :
  loadFromSource c source env strategy = (env', None, calls) ->
  exists provider config,
    providers c !! (parseSource source).1 = Some provider
    /\ Provider_Load provider (parseSource source).2 = (config, None)
    /\ EnvSources env'
       = (EnvSources env ++
            [ {| SI_Name := source;
                 SI_Provider := (parseSource source).1;
                 SI_KeyCount := len (Data env') - len (Data env) |} ])%list
    /\ (strategy = MergeStrategyOverride ->
        dom config ⊆ dom (Data env) ->
        Data env' = config ∪ Data env
        /\ len (Data env') - len (Data env) = 0).
Proof.
  intros Hstep.
  apply loadFromSource_ok_inv in Hstep
    as (provider & config & data & Hp & _ & Hload & Hmerge & _ & ->).
  exists provider, config. simpl. repeat split; try done.
  - subst strategy. rewrite mergeConfiguration_override in Hmerge by done.
    by injection Hmerge as <-.
  - subst strategy. rewrite mergeConfiguration_override in Hmerge by done.
    injection Hmerge as <-. rewrite len_union_subseteq by done. lia.
Qed.

(** [Load] on a non-empty source list whose loop goes through. *)
Lemma Load_after_loop c o env calls :
  Sources o <> [] ->
  loadSources c (Sources o) (emptyEnvironment c) (Strategy o)
  = (env, None, calls) ->
  Load c o
  = match
      match validator c with Some v => v (Data env) | None => None end
    with
    | Some err => (None, Some (Errorw "validation failed: " err), calls)
    | None =>
        if MaxEnvironmentKeys <? len (Data env) then
          (None,
           Some (Errorf ("too many environment keys: "
                         +:+ fmt_d (len (Data env)) +:+ " > "
                         +:+ fmt_d MaxEnvironmentKeys)),
           calls)
        else (Some env, None, calls)
    end.
Proof.
  unfold client.Load, emptyEnvironment.
  destruct (Sources o) as [|source rest]; [done|]. by intros _ ->.
Qed.

Lemma Load_ok c o env calls :
  Sources o <> [] ->
  loadSources c (Sources o) (emptyEnvironment c) (Strategy o)
  = (env, None, calls) ->
  accepts c (Data env) ->
  len (Data env) <= MaxEnvironmentKeys ->
  Load c o = (Some env, None, calls).
Proof.
  intros Hne Hloop Hacc Hlen. rewrite (Load_after_loop _ _ _ _ Hne Hloop).
  unfold accepts in Hacc. destruct (validator c); rewrite ?Hacc;
    by destruct (Z.ltb_spec MaxEnvironmentKeys (len (Data env))); [lia|].
Qed.

(** When [Load] returns an environment, every source step went
    through, the validator accepted the merged data and the key count
    is within the ceiling. *)
Lemma Load_ok_inv c o env err calls :
  Load c o = (Some env, err, calls) ->
  err = None
  /\ Sources o <> []
  /\ loadSources c (Sources o) (emptyEnvironment c) (Strategy o)
     = (env, None, calls)
  /\ accepts c (Data env)
  /\ len (Data env) <= MaxEnvironmentKeys.
Proof.
  unfold client.Load, emptyEnvironment, accepts.
  destruct (Sources o) as [|source rest]; [done|].
  destruct (client.loadSources _ _ _ _ _) as [[env1 [e|]] calls1]; [done|].
  destruct (validator c) as [v|].
  - destruct (v (Data env1)) eqn:Hv; [done|].
    destruct (Z.ltb_spec MaxEnvironmentKeys (len (Data env1))); [done|].
    by intros [= <- <- <-].
  - destruct (Z.ltb_spec MaxEnvironmentKeys (len (Data env1))); [done|].
    by intros [= <- <- <-].
Qed.

(** The two results of [Load] are never both [nil] nor both set. *)
Lemma Load_results c o :
  (exists e calls, Load c o = (None, Some e, calls))
  \/ (exists env calls, Load c o = (Some env, None, calls)).
Proof.
  unfold client.Load.
  destruct (Sources o) as [|source rest]; [left; eauto|].
  destruct (client.loadSources _ _ _ _ _) as [[env1 [e|]] calls1];
    [left; eauto|].
  destruct (match validator c with Some v => v (Data env1) | None => None end);
    [left; eauto|].
  destruct (MaxEnvironmentKeys <? len (Data env1)); [left|right]; eauto.
Qed.

(** [Load] when a source step fails after the sources before it went
    through. *)
Lemma Load_source_error c o pre source post env1 calls1 env2 err calls2 :
  Sources o = (pre ++ source :: post)%list ->
  loadSources c pre (emptyEnvironment c) (Strategy o) = (env1, None, calls1) ->
  loadFromSource c source env1 (Strategy o) = (env2, Some err, calls2) ->
  Load c o
  = (None,
     Some (Errorw ("failed to load from source " +:+ source +:+ ": ") err),
     (calls1 ++ calls2)%list).
Proof.
  intros Hsrc Hpre Hstep. unfold client.Load.
  destruct (Sources o) as [|s0 rest] eqn:Hs; [by destruct pre|].
  rewrite Hsrc.
  fold (emptyEnvironment c).
  by rewrite (loadSources_error_stops _ _ _ _ _ _ _ _ _ _ _ _ Hpre Hstep).
Qed.

(** C4. Two sources processed in order, the first yielding [A] and
    the second [B]: under [Override] the result is [B] laid over [A],
    so a key of both has the value of [B]; under [Preserve] it is [A]
    completed by [B], so a key of both keeps the value of [A] and no
    error is raised. With [A = {"K": "1"}] and [B = {"K": "2"}] this
    is [K = "2"] and [K = "1"]. *)
Theorem Load_override_preserve_two_sources c sA sB pA pB A B schema :
  providers c !! (parseSource sA).1 = Some pA ->
  Provider_Validate pA (parseSource sA).2 = None ->
  Provider_Load pA (parseSource sA).2 = (A, None) ->
  providers c !! (parseSource sB).1 = Some pB ->
  Provider_Validate pB (parseSource sB).2 = None ->
  Provider_Load pB (parseSource sB).2 = (B, None) ->
  accepts c (B ∪ A) ->
  accepts c (A ∪ B) ->
  len (A ∪ B) <= MaxEnvironmentKeys ->
  exists envO envP,
    Load c {| Sources := [sA; sB]; Schema := schema;
              Strategy := MergeStrategyOverride |}
    = (Some envO, None, (callsOf sA ++ callsOf sB)%list)
    /\ Load c {| Sources := [sA; sB]; Schema := schema;
                 Strategy := MergeStrategyPreserve |}
       = (Some envP, None, (callsOf sA ++ callsOf sB)%list)
    /\ Data envO = B ∪ A
    /\ Data envP = A ∪ B
    /\ (forall k v1 v2, A !! k = Some v1 -> B !! k = Some v2 ->
          Data envO !! k = Some v2 /\ Data envP !! k = Some v1).
Proof.
  intros HpA HvA HlA HpB HvB HlB HaccO HaccP Hlen.
  assert (len (B ∪ A) <= MaxEnvironmentKeys) as Hlen'.
  { revert Hlen. unfold len.
    by rewrite <- !size_dom, !dom_union_L, (comm_L (∪) (dom A)). }
  eexists _, _. split_and!.
  - apply Load_ok; [done| |..]; cbn [Sources Strategy client.loadSources].
    + erewrite loadFromSource_ok;
        [|done..|by apply mergeConfiguration_override].
      erewrite loadFromSource_ok;
        [|done..|by apply mergeConfiguration_override].
      cbn [app]. reflexivity.
    + cbn [Data emptyEnvironment]. by rewrite (right_id_L ∅ (∪)).
    + cbn [Data emptyEnvironment]. by rewrite (right_id_L ∅ (∪)).
  - apply Load_ok; [done| |..]; cbn [Sources Strategy client.loadSources].
    + erewrite loadFromSource_ok;
        [|done..|by apply mergeConfiguration_preserve].
      erewrite loadFromSource_ok;
        [|done..|by apply mergeConfiguration_preserve].
      cbn [app]. reflexivity.
    + cbn [Data emptyEnvironment]. by rewrite (left_id_L ∅ (∪)).
    + cbn [Data emptyEnvironment]. by rewrite (left_id_L ∅ (∪)).
  - cbn [Data emptyEnvironment]. by rewrite (right_id_L ∅ (∪)).
  - cbn [Data emptyEnvironment]. by rewrite (left_id_L ∅ (∪)).
  - intros k v1 v2 HA HB. cbn [Data emptyEnvironment].
    rewrite (right_id_L ∅ (∪)), (left_id_L ∅ (∪)). split.
    + by apply lookup_union_Some_l.
    + by apply lookup_union_Some_l.
Qed.

(** C5. Under the [Error] strategy, when the sources before [source]
    went through and [source] yields a key the accumulator already
    has, [Load] returns no environment and the conflict error, whose
    text quotes a shared key, the value the accumulator had and the
    value of the source. The only provider calls made are those of the
    sources before and the two of [source]: none of the sources after
    it is touched. *)
Theorem Load_error_strategy_conflict c pre source post schema env1 calls1
    provider config :
  loadSources c pre (emptyEnvironment c) MergeStrategyError
  = (env1, None, calls1) ->
  providers c !! (parseSource source).1 = Some provider ->
  Provider_Validate provider (parseSource source).2 = None ->
  Provider_Load provider (parseSource source).2 = (config, None) ->
  (exists k, is_Some (config !! k) /\ is_Some (Data env1 !! k)) ->
  exists k existing value,
    Data env1 !! k = Some existing
    /\ config !! k = Some value
    /\ Load c {| Sources := (pre ++ source :: post)%list; Schema := schema;
                 Strategy := MergeStrategyError |}
       = (None,
          Some (Errorw ("failed to load from source " +:+ source +:+ ": ")
                  (Errorf ("duplicate key found: " +:+ k +:+ " (existing: "
                           +:+ existing +:+ ", new: " +:+ value +:+ ")"))),
          (calls1 ++ callsOf source)%list).
Proof.
  intros Hpre Hp Hv Hl Hshared.
  destruct (mergeConfiguration_error_conflict range_order range_order_perm
              (Data env1) config Hshared)
    as (k & existing & value & target' & Hcfg & Hacc & Hmerge).
  exists k, existing, value. split; [done|]. split; [done|].
  eapply Load_source_error; [done|done|].
  unfold client.loadFromSource, callsOf.
  destruct (parseSource source) as [providerName actualSource];
    simpl in *.
  rewrite Hp, Hv, Hl.
  unfold client.mergeConfiguration in *. by rewrite Hmerge.
Qed.

(** Each way a source step can fail makes [loadFromSource] return an
    error. *)
Lemma loadFromSource_fails c env strategy source :
  sourceStepFails c env strategy source ->
  exists env2 err calls,
    loadFromSource c source env strategy = (env2, Some err, calls).
Proof.
  unfold client.loadFromSource.
  destruct (parseSource source) as [providerName actualSource] eqn:Hparse.
  intros [Hp|provider err Hp Hv|provider config err Hp Hv Hl
         |provider config key Hp Hv Hl -> Hcfg Hacc];
    rewrite Hparse in *; simpl in *; rewrite Hp.
  - eauto.
  - rewrite Hv. eauto.
  - rewrite Hv, Hl. eauto.
  - rewrite Hv, Hl.
    destruct (mergeConfiguration_error_conflict range_order range_order_perm
                (Data env) config)
      as (k & existing & value & target' & _ & _ & Hmerge); [by exists key|].
    unfold client.mergeConfiguration in *. rewrite Hmerge. eauto.
Qed.

(** C6. [Load] returns either an error and no environment, or an
    environment and no error, and in the second case the environment
    is the one left by the loop after every source step went through.
    A failing source step (unknown provider, rejected path, provider
    load failure, merge conflict), a rejecting validator or a key count
    above the ceiling each give the first case. *)
Theorem Load_failure_returns_no_environment c o :
  ((exists e calls, Load c o = (None, Some e, calls))
   \/ (exists env calls,
         Load c o = (Some env, None, calls)
         /\ loadSources c (Sources o) (emptyEnvironment c) (Strategy o)
            = (env, None, calls)))
  /\ (forall pre source post env1 calls1,
        Sources o = (pre ++ source :: post)%list ->
        loadSources c pre (emptyEnvironment c) (Strategy o)
        = (env1, None, calls1) ->
        sourceStepFails c env1 (Strategy o) source ->
        exists e calls, Load c o = (None, Some e, calls))
  /\ (forall env calls,
        loadSources c (Sources o) (emptyEnvironment c) (Strategy o)
        = (env, None, calls) ->
        ~ accepts c (Data env) \/ MaxEnvironmentKeys < len (Data env) ->
        exists e, Load c o = (None, Some e, calls)).
Proof.
  split_and!.
  - destruct (Load_results c o) as [?|(env & calls & Hload)]; [by left|].
    right. exists env, calls. split; [done|].
    by apply Load_ok_inv in Hload as (_ & _ & ? & _).
  - intros pre source post env1 calls1 Hsrc Hpre Hfail.
    apply loadFromSource_fails in Hfail as (env2 & err & calls2 & Hstep).
    rewrite (Load_source_error _ _ _ _ _ _ _ _ _ _ Hsrc Hpre Hstep). eauto.
  - intros env calls Hloop Hbad.
    destruct (Load_results c o) as [(e & calls' & Hload)|(env' & calls' & Hload)].
    + destruct (Sources o) as [|source rest] eqn:Hs.
      * simpl in Hloop. injection Hloop as <- <-.
        unfold client.Load in *. rewrite Hs in *. eauto.
      * rewrite (Load_after_loop c o env calls) in Hload
          by (done || by rewrite Hs).
        rewrite (Load_after_loop c o env calls) by (done || by rewrite Hs).
        destruct (match validator c with
                  | Some v => v (Data env) | None => None end); [eauto|].
        destruct (MaxEnvironmentKeys <? len (Data env)); [eauto|done].
    + apply Load_ok_inv in Hload as (_ & _ & Hloop' & Hacc & Hlen).
      rewrite Hloop in Hloop'. injection Hloop' as <- <-.
      destruct Hbad; [done|lia].
Qed.

(** X28. An environment returned by [Load] comes with no error, has at
    most [MaxEnvironmentKeys] keys and was accepted by the client's
    validator, if one is set; and when every source goes through and
    the merged mapping has more keys than that, [Load] returns an error
    and no environment. *)
Theorem Load_enforces_key_count_ceiling c o :
  (forall env err calls,
      Load c o = (Some env, err, calls) ->
      err = None
      /\ len (Data env) <= MaxEnvironmentKeys
      /\ accepts c (Data env))
  /\ (forall env calls,
        loadSources c (Sources o) (emptyEnvironment c) (Strategy o)
        = (env, None, calls) ->
        MaxEnvironmentKeys < len (Data env) ->
        exists e, Load c o = (None, Some e, calls)).
Proof.
  split.
  - intros env err calls Hload.
    by apply Load_ok_inv in Hload as (-> & _ & _ & ? & ?).
  - intros env calls Hloop Hlen.
    destruct (Sources o) as [|source rest] eqn:Hs.
    + unfold client.Load. rewrite Hs. simpl in Hloop.
      injection Hloop as <- <-. eauto.
    + rewrite (Load_after_loop c o env calls) by (done || by rewrite Hs).
      destruct (match validator c with
                | Some v => v (Data env) | None => None end); [eauto|].
      destruct (Z.ltb_spec MaxEnvironmentKeys (len (Data env))); [eauto|lia].
Qed.

(** The loop records one entry per source, in the order of the sources,
    and the recorded counts add up to the growth of the accumulator. *)
Lemma loadSources_records c sources env strategy env' calls :
  loadSources c sources env strategy = (env', None, calls) ->
  exists added,
    EnvSources env' = (EnvSources env ++ added)%list
    /\ SI_Name <$> added = sources
    /\ foldr Z.add 0 (SI_KeyCount <$> added)
       = len (Data env') - len (Data env).
Proof.
  revert env calls. induction sources as [|source sources IH];
    intros env calls; simpl.
  - intros [= <- <-]. exists []. rewrite (right_id_L [] (++)).
    split_and!; [done..|simpl; lia].
  - destruct (loadFromSource c source env strategy) as [[env1 [e|]] calls1]
      eqn:Hstep; [done|].
    destruct (loadSources c sources env1 strategy) as [[env2 err] calls2]
      eqn:Hloop.
    intros [= -> -> <-].
    apply IH in Hloop as (added & Hsrc & Hnames & Hsum).
    apply loadFromSource_ok_inv in Hstep
      as (provider & config & data & _ & _ & _ & _ & _ & ->).
    simpl in *.
    exists ({| SI_Name := source; SI_Provider := (parseSource source).1;
               SI_KeyCount := len data - len (Data env) |} :: added).
    split_and!.
    + by rewrite Hsrc, <- (assoc_L (++)).
    + rewrite fmap_cons. by rewrite Hnames.
    + rewrite fmap_cons. simpl. lia.
Qed.

(** ** A mapping of a chosen size *)

Lemma numberedEntries_keys n :
  (Examples.numberedEntries n).*1 = pretty <$> seq 0 n.
Proof. unfold Examples.numberedEntries. by rewrite <- list_fmap_compose. Qed.

Lemma numberedEntries_NoDup n : NoDup (Examples.numberedEntries n).*1.
Proof.
  rewrite numberedEntries_keys. apply NoDup_fmap_2; [apply _|apply NoDup_seq].
Qed.

Lemma numberedMap_len n : len (Examples.numberedMap n) = Z.of_nat n.
Proof.
  unfold len, Examples.numberedMap. f_equal.
  rewrite map_size_list_to_map by apply numberedEntries_NoDup.
  unfold Examples.numberedEntries. by rewrite length_fmap, length_seq.
Qed.

Lemma numberedMap_fresh n : Examples.numberedMap n !! pretty n = None.
Proof.
  apply not_elem_of_list_to_map_1. rewrite numberedEntries_keys.
  intros (i & Hi & Hin)%list_elem_of_fmap.
  apply (inj pretty) in Hi as <-. apply elem_of_seq in Hin. lia.
Qed.

(** [Load] of a single source under [Override]. *)
Lemma Load_single_source c source provider config schema :
  providers c !! (parseSource source).1 = Some provider ->
  Provider_Validate provider (parseSource source).2 = None ->
  Provider_Load provider (parseSource source).2 = (config, None) ->
  accepts c config ->
  len config <= MaxEnvironmentKeys ->
  exists env,
    Load c {| Sources := [source]; Schema := schema;
              Strategy := MergeStrategyOverride |}
    = (Some env, None, callsOf source)
    /\ Data env = config.
Proof.
  intros Hp Hv Hl Hacc Hlen. eexists. split.
  - apply Load_ok; [done| |..]; cbn [Sources Strategy client.loadSources].
    + erewrite loadFromSource_ok;
        [|done..|by apply mergeConfiguration_override].
      by rewrite (right_id_L [] (++)).
    + cbn [Data emptyEnvironment]. by rewrite (right_id_L ∅ (∪)).
    + cbn [Data emptyEnvironment]. by rewrite (right_id_L ∅ (∪)).
  - cbn [Data emptyEnvironment]. by rewrite (right_id_L ∅ (∪)).
Qed.

(** The loop on the single source of a client whose default provider
    yields [n] keys. *)
Lemma loadSources_numbered n :
  exists env,
    loadSources (Examples.clientNumbered n)
      (Sources Examples.optionsNumbered)
      (emptyEnvironment (Examples.clientNumbered n))
      (Strategy Examples.optionsNumbered)
    = (env, None, callsOf "numbered.env")
    /\ Data env = Examples.numberedMap n.
Proof.
  eexists. split.
  - cbn [Sources Strategy Examples.optionsNumbered client.loadSources].
    erewrite (loadFromSource_ok _ _ _ _ _
                (Examples.constProvider "default" (Examples.numberedMap n))
                (Examples.numberedMap n));
      [by rewrite (right_id_L [] (++))|apply lookup_singleton_eq|done|done
      |by apply mergeConfiguration_override].
  - cbn [Data emptyEnvironment]. by rewrite (right_id_L ∅ (∪)).
Qed.

Lemma Load_numbered n :
  Z.of_nat n <= MaxEnvironmentKeys ->
  exists env calls,
    Load (Examples.clientNumbered n) Examples.optionsNumbered
    = (Some env, None, calls)
    /\ Data env = Examples.numberedMap n.
Proof.
  intros Hn. destruct (loadSources_numbered n) as (env & Hloop & Hdata).
  exists env, (callsOf "numbered.env"). split; [|done].
  apply Load_ok; [done|done|done|]. by rewrite Hdata, numberedMap_len.
Qed.

(** C10 (as the code has it). On an environment whose [Data] map is
    allocated, as that of every environment [Load] returns is, [Set]
    followed by [Get] of the same key returns the value set and [true];
    the other keys, the recorded sources and the client are as before.
    On an environment whose [Data] is nil [Set] panics. [Set] checks
    nothing: it stores a key longer than [MaxKeyLength] with a value
    longer than [MaxValueLength], and on an environment that [Load]
    returned with exactly [MaxEnvironmentKeys] keys it adds one more. *)
Theorem Set_Get_frame_on_allocated_Data :
  (forall e k v, exists e',
      Set_ (DataAllocated e) k v = SetReturns e'
      /\ Get e' k = (v, true)
      /\ (forall k', k' <> k -> Get e' k' = Get e k')
      /\ EnvSources e' = EnvSources e
      /\ env_client e' = env_client e)
  /\ (forall sources c k v, Set_ (DataNil sources c) k v = SetPanics)
  /\ (forall e,
        MaxKeyLength < strlen Examples.longKey
        /\ MaxValueLength < strlen Examples.longValue
        /\ exists e',
             Set_ (DataAllocated e) Examples.longKey Examples.longValue
             = SetReturns e'
             /\ Get e' Examples.longKey = (Examples.longValue, true))
  /\ (exists c o e calls k v e',
        Load c o = (Some e, None, calls)
        /\ len (Data e) = MaxEnvironmentKeys
        /\ Set_ (DataAllocated e) k v = SetReturns e'
        /\ len (Data e') = MaxEnvironmentKeys + 1).
Proof.
  assert (forall e k v, exists e',
    Set_ (DataAllocated e) k v = SetReturns e' /\ Get e' k = (v, true))
    as Hget.
  { intros e k v. eexists. split; [done|].
    unfold Get. simpl. by rewrite lookup_insert_eq. }
  split_and!.
  - intros e k v. eexists. split; [done|].
    split_and!; [|intros k' Hne|done|done]; unfold Get; simpl.
    + by rewrite lookup_insert_eq.
    + by rewrite lookup_insert_ne.
  - done.
  - intros e. split_and!; [by vm_compute..|apply Hget].
  - destruct (Load_numbered (Z.to_nat MaxEnvironmentKeys))
      as (e & calls & Hload & Hdata).
    { rewrite Z2Nat.id; unfold MaxEnvironmentKeys; lia. }
    exists (Examples.clientNumbered (Z.to_nat MaxEnvironmentKeys)),
      Examples.optionsNumbered, e, calls,
      (pretty (Z.to_nat MaxEnvironmentKeys)), "".
    eexists. split; [done|]. split; [|split; [done|]]; cbn [Data];
      rewrite Hdata.
    + rewrite numberedMap_len, Z2Nat.id; unfold MaxEnvironmentKeys; lia.
    + unfold len. rewrite map_size_insert_None by apply numberedMap_fresh.
      fold (len (Examples.numberedMap (Z.to_nat MaxEnvironmentKeys))).
      rewrite Nat2Z.inj_succ.
      fold (len (Examples.numberedMap (Z.to_nat MaxEnvironmentKeys))).
      rewrite numberedMap_len, Z2Nat.id; unfold MaxEnvironmentKeys; lia.
Qed.

End LoadProperties.

(** * Properties of the registry *)
Section RegistryProperties.
Import registry.

(** [Register] returns before touching the registry when the entry is
    absent, unnamed, without factory, when the registry is full or the
    name is taken. *)
Lemma Register_rejected_before_insert r info :
  match info with
  | None => True
  | Some info =>
      String.eqb (TrimSpace (Name info)) "" = true
      \/ Factory info = None
      \/ MaxProviders <= client.len (providers r)
      \/ is_Some (providers r !! Name info)
  end ->
  (Register r info).1 = r /\ is_Some (Register r info).2.
Proof.
  unfold Register. destruct info as [info|]; [|by eauto].
  destruct (String.eqb (TrimSpace (Name info)) "") eqn:Hname; [by eauto|].
  destruct (Factory info) as [factory|] eqn:Hfac; [|by eauto].
  destruct (Z.leb_spec MaxProviders (client.len (providers r)));
    [by eauto|].
  destruct (providers r !! Name info) eqn:Hlook; [by eauto|].
  intros [?|[?|[?|[? ?]]]]; (done || lia).
Qed.

(** C1 (failing input). The registry holds the provider [a]; a
    provider [b] with aliases [x] and [a] is registered. The call
    returns the alias-conflict error for [a], yet the registry it
    leaves holds the provider [b] and the alias [x], which were absent
    before: the registration is not undone. *)
Theorem Register_alias_conflict_leaves_partial_registration :
  let r := Examples.registryA in
  let after := Register r (Some Examples.infoB) in
  after.2 = Some (Errorf "alias a conflicts with existing provider")
  /\ providers r !! "b" = None
  /\ aliases r !! "x" = None
  /\ is_Some (providers after.1 !! "b")
  /\ aliases after.1 !! "x" = Some "b"
  /\ IsProviderRegistered after.1 "b" = true
  /\ after.1 <> r.
Proof.
  cbv zeta. split_and!; try by vm_compute.
  vm_compute. by eexists.
Qed.

(** C2 (failing input). From the empty registry, the provider [a] is
    registered with alias [b], then a provider named [b]: both calls
    return no error, and [b] is afterwards both a provider name and an
    alias. The name [b] then resolves to the provider [a]. *)
Theorem Register_accepts_name_that_is_an_alias :
  let r1 := Register NewRegistry
              (Some (Examples.providerInfo "a" ["b"]
                       (Examples.workingFactory "a"))) in
  let r2 := Register r1.1
              (Some (Examples.providerInfo "b" []
                       (Examples.workingFactory "b"))) in
  r1.2 = None /\ r2.2 = None
  /\ run Examples.registerAliasThenName NewRegistry = r2.1
  /\ "b" ∈ names r2.1 /\ "b" ∈ aliasNames r2.1
  /\ ~ (names r2.1 ## aliasNames r2.1)
  /\ resolveProviderName r2.1 "b" = "a".
Proof.
  cbv zeta.
  assert ("b" ∈ names (run Examples.registerAliasThenName NewRegistry)) as Hn.
  { apply elem_of_dom. vm_compute. by eexists. }
  assert ("b" ∈ aliasNames (run Examples.registerAliasThenName NewRegistry))
    as Ha.
  { apply elem_of_dom. vm_compute. by eexists. }
  split_and!; try done.
  intros Hdisj. by apply (Hdisj "b").
Qed.

(** [Unregister] deletes the aliases as they were written, [Register]
    stores them trimmed: the alias [b] outlives its provider, and after
    two more registrations [a] and [b] are each a provider and an alias
    of the other, so each name creates the other provider. *)
Example Unregister_leaves_trimmed_alias :
  let r := run Examples.registerAcrossUnregister NewRegistry in
  runErrors Examples.registerAcrossUnregister NewRegistry
  = [None; None; None; None]
  /\ aliases r !! "b" = Some "a"
  /\ aliases r !! "a" = Some "b"
  /\ CreateProvider r "b" ∅
     = Returns (Some (Examples.constProvider "a" ∅)) None
  /\ CreateProvider r "a" ∅
     = Returns (Some (Examples.constProvider "b" ∅)) None.
Proof. cbv zeta. split_and!; by vm_compute. Qed.



End RegistryProperties.

(** * The statements above on concrete inputs

    The order of [range] is here the one of [map_to_list]. *)
Section Instances.
Import client registry Examples.

Lemma map_to_list_order (m : gmap string string) :
  map_to_list m ≡ₚ map_to_list m.
Proof. reflexivity. Qed.

Example parseSource_examples :
  parseSource "local:.env" = ("local", ".env")
  /\ parseSource ".env" = ("default", ".env")
  /\ parseSource "k8s:ns/secret:name" = ("k8s", "ns/secret:name")
  /\ parseSource ":x" = ("", "x")
  /\ parseSource "" = ("default", "").
Proof. by vm_compute. Qed.

(** The second source of the example overwrites [K] under [Override]:
    it is recorded with [KeyCount] 0 although it holds one key. *)
Lemma loadFromSource_KeyCount_net_growth_witness :
  let step := loadFromSource map_to_list clientAB "b:y" envA
                MergeStrategyOverride in
  step.1.2 = None
  /\ Data step.1.1 !! "K" = Some "2"
  /\ exists provider config,
       client.providers clientAB !! (parseSource "b:y").1 = Some provider
       /\ Provider_Load provider (parseSource "b:y").2 = (config, None)
       /\ EnvSources step.1.1
          = (EnvSources envA ++
               [ {| SI_Name := "b:y";
                    SI_Provider := (parseSource "b:y").1;
                    SI_KeyCount := len (Data step.1.1) - len (Data envA) |} ])%list
       /\ (MergeStrategyOverride = MergeStrategyOverride ->
           dom config ⊆ dom (Data envA) ->
           Data step.1.1 = config ∪ Data envA
           /\ len (Data step.1.1) - len (Data envA) = 0).
Proof.
  cbv zeta. split; [reflexivity|]. split; [reflexivity|].
  apply (loadFromSource_KeyCount_net_growth map_to_list map_to_list_order
           clientAB "b:y" envA MergeStrategyOverride _
           (loadFromSource map_to_list clientAB "b:y" envA
              MergeStrategyOverride).2).
  reflexivity.
Defined.

Lemma Load_override_preserve_two_sources_witness :
  exists envO envP,
    Load map_to_list clientAB (optionsAB MergeStrategyOverride)
    = (Some envO, None, (callsOf "a:x" ++ callsOf "b:y")%list)
    /\ Load map_to_list clientAB (optionsAB MergeStrategyPreserve)
       = (Some envP, None, (callsOf "a:x" ++ callsOf "b:y")%list)
    /\ Data envO !! "K" = Some "2"
    /\ Data envP !! "K" = Some "1".
Proof.
  destruct (Load_override_preserve_two_sources map_to_list map_to_list_order
              clientAB "a:x" "b:y"
              (constProvider "a" {["K" := "1"]})
              (constProvider "b" {["K" := "2"]})
              {["K" := "1"]} {["K" := "2"]} "")
    as (envO & envP & HO & HP & _ & _ & HK);
    [reflexivity|reflexivity|reflexivity|reflexivity|reflexivity|reflexivity
    |exact I|exact I|by vm_compute|].
  exists envO, envP. split; [exact HO|]. split; [exact HP|].
  apply (HK "K" "1" "2"); reflexivity.
Defined.

Lemma Load_error_strategy_conflict_witness :
  Load map_to_list clientAB (optionsAB MergeStrategyError)
  = (None,
     Some (wrapError
             "failed to load from source b:y: duplicate key found: K (existing: 1, new: 2)"
             (errorString "duplicate key found: K (existing: 1, new: 2)")),
     (callsOf "a:x" ++ callsOf "b:y")%list).
Proof.
  destruct (Load_error_strategy_conflict map_to_list map_to_list_order
              clientAB ["a:x"] "b:y" [] "" envA (callsOf "a:x")
              (constProvider "b" {["K" := "2"]}) {["K" := "2"]})
    as (k & existing & value & Hacc & Hcfg & Hload);
    [reflexivity|reflexivity|reflexivity|reflexivity| |].
  - exists "K". split; by eexists.
  - destruct (decide (k = "K")) as [->|Hne].
    + vm_compute in Hacc, Hcfg.
      injection Hacc as <-. injection Hcfg as <-. exact Hload.
    + exfalso. rewrite lookup_singleton_ne in Hcfg by done. discriminate.
Defined.

Lemma Load_failure_returns_no_environment_witness :
  exists e calls, Load map_to_list clientAB optionsGhost = (None, Some e, calls).
Proof.
  apply (proj1 (proj2 (Load_failure_returns_no_environment map_to_list
                         map_to_list_order clientAB optionsGhost))
           ["a:x"] "ghost:path" ["b:y"] envA (callsOf "a:x"));
    [reflexivity|reflexivity|].
  apply UnknownProvider. reflexivity.
Defined.

(** A [Load] that goes through stays within the ceiling; one whose
    single source yields 10001 keys fails. *)
Lemma Load_enforces_key_count_ceiling_witness :
  (exists env calls,
      Load map_to_list clientAB (optionsAB MergeStrategyOverride)
      = (Some env, None, calls)
      /\ len (Data env) <= MaxEnvironmentKeys)
  /\ (exists e calls,
        Load map_to_list (clientNumbered (Z.to_nat 10001)) optionsNumbered
        = (None, Some e, calls)).
Proof.
  split.
  - destruct (Load map_to_list clientAB (optionsAB MergeStrategyOverride))
      as [[[env|] err] calls] eqn:Hload; [|by vm_compute in Hload].
    destruct (proj1 (Load_enforces_key_count_ceiling map_to_list clientAB
                       (optionsAB MergeStrategyOverride))
                env err calls Hload) as (-> & Hlen & _).
    by exists env, calls.
  - destruct (loadSources_numbered map_to_list map_to_list_order
                (Z.to_nat 10001)) as (env & Hloop & Hdata).
    destruct (proj2 (Load_enforces_key_count_ceiling map_to_list
                       (clientNumbered (Z.to_nat 10001)) optionsNumbered)
                env (callsOf "numbered.env") Hloop) as [e He].
    + rewrite Hdata, numberedMap_len, Z2Nat.id; unfold MaxEnvironmentKeys; lia.
    + by exists e, (callsOf "numbered.env").
Defined.

(** C3 (failing input). The default provider yields one entry whose
    key has 257 bytes and whose value has 4097 bytes; the client has
    no validator. [Load] returns an environment that holds the entry,
    although [MaxKeyLength] and [MaxValueLength] are declared as the
    maximum length of an environment key and of an environment
    value. *)
Lemma Load_returns_overlong_key_and_value :
  exists env calls,
    Load map_to_list clientLong optionsLong = (Some env, None, calls)
    /\ Data env !! longKey = Some longValue
    /\ MaxKeyLength < strlen longKey
    /\ MaxValueLength < strlen longValue.
Proof.
  destruct (Load_single_source map_to_list map_to_list_order clientLong
              "long.env" (constProvider "default" {[longKey := longValue]})
              {[longKey := longValue]} "")
    as (env & Hload & Hdata).
  - apply lookup_singleton_eq.
  - reflexivity.
  - reflexivity.
  - exact I.
  - unfold len. rewrite map_size_singleton. by vm_compute.
  - exists env, (callsOf "long.env"). split; [exact Hload|].
    split; [rewrite Hdata; apply lookup_singleton_eq|].
    split; by vm_compute.
Qed.

Lemma Set_Get_frame_on_allocated_Data_witness :
  (exists e',
      Set_ (DataAllocated envA) "J" "9" = SetReturns e'
      /\ Get e' "J" = ("9", true)
      /\ Get e' "K" = Get envA "K"
      /\ EnvSources e' = EnvSources envA)
  /\ (exists c o e calls k v e',
        Load map_to_list c o = (Some e, None, calls)
        /\ len (Data e) = MaxEnvironmentKeys
        /\ Set_ (DataAllocated e) k v = SetReturns e'
        /\ len (Data e') = MaxEnvironmentKeys + 1).
Proof.
  destruct (Set_Get_frame_on_allocated_Data map_to_list map_to_list_order)
    as (Hframe & _ & _ & Hmore).
  destruct (Hframe envA "J" "9") as (e' & Hset & Hget & Hother & Hsources & _).
  split; [|exact Hmore]. exists e'.
  split; [exact Hset|]. split; [exact Hget|]. split; [by apply Hother|].
  exact Hsources.
Defined.

(** C10 (counterexample). The zero value of [Environment] has a nil
    [Data]: [Set] on it panics, so it leaves no environment in which
    [Get] would find the key. *)
Lemma Set_on_zero_value_panics :
  Set_ (DataNil [] None) "K" "1" = SetPanics
  /\ ~ exists e',
        Set_ (DataNil [] None) "K" "1" = SetReturns e'
        /\ Get e' "K" = ("1", true).
Proof.
  split; [done|]. by intros (e' & Hset & _).
Qed.



End Instances.


(** * Further properties of the registry *)
Section RegistryInvariants.
Import registry Spec2.

Lemma withDefaultPriority_fields info :
  Name (withDefaultPriority info) = Name info
  /\ Aliases (withDefaultPriority info) = Aliases info
  /\ Factory (withDefaultPriority info) = Factory info
  /\ Priority (withDefaultPriority info) <> 0.
Proof.
  unfold withDefaultPriority.
  destruct (Z.eqb_spec (Priority info) 0); simpl; by split_and!.
Qed.

Lemma registerAliases_providers r name rest :
  providers (registerAliases r name rest).1 = providers r.
Proof.
  revert r. induction rest as [|alias rest IH]; intros r; simpl; [done|].
  destruct (String.eqb (TrimSpace alias) ""); [apply IH|].
  destruct (providers r !! TrimSpace alias); [done|].
  destruct (aliases r !! TrimSpace alias); [done|].
  by rewrite IH.
Qed.

(** The alias loop writes only keys that neither map held. *)
Lemma registerAliases_keeps r name rest a n :
  aliases r !! a = Some n ->
  aliases (registerAliases r name rest).1 !! a = Some n.
Proof.
  revert r. induction rest as [|alias rest IH]; intros r Ha; simpl; [done|].
  destruct (String.eqb (TrimSpace alias) ""); [by apply IH|].
  destruct (providers r !! TrimSpace alias); [done|].
  destruct (aliases r !! TrimSpace alias) eqn:Hlook; [done|].
  apply IH. simpl. rewrite lookup_insert_ne; [done|]. congruence.
Qed.

Lemma registerAliases_new r name rest k n :
  aliases (registerAliases r name rest).1 !! k = Some n ->
  aliases r !! k = Some n \/ (n = name /\ providers r !! k = None).
Proof.
  revert r. induction rest as [|alias rest IH]; intros r; simpl; [by left|].
  destruct (String.eqb (TrimSpace alias) ""); [apply IH|].
  destruct (providers r !! TrimSpace alias) eqn:Hprov; [by left|].
  destruct (aliases r !! TrimSpace alias) eqn:Hlook; [by left|].
  intros [Hk|Hk]%IH; simpl in *; [|by right].
  destruct (decide (TrimSpace alias = k)) as [<-|Hne].
  - rewrite lookup_insert_eq in Hk. right. split; congruence.
  - rewrite lookup_insert_ne in Hk by done. by left.
Qed.

Lemma registerAliases_ok r name rest r' :
  registerAliases r name rest = (r', None) ->
  forall alias, alias ∈ rest -> TrimSpace alias <> "" ->
    aliases r' !! TrimSpace alias = Some name.
Proof.
  revert r. induction rest as [|alias0 rest IH]; intros r Hreg alias Hin Hne.
  { by apply elem_of_nil in Hin. }
  simpl in Hreg.
  destruct (String.eqb_spec (TrimSpace alias0) "") as [Hblank|Hnonblank].
  - apply elem_of_cons in Hin as [->|Hin]; [done|]. by eapply IH.
  - destruct (providers r !! TrimSpace alias0); [done|].
    destruct (aliases r !! TrimSpace alias0); [done|].
    apply elem_of_cons in Hin as [->|Hin]; [|by eapply IH].
    replace r' with (registerAliases
                       {| providers := providers r;
                          aliases := <[TrimSpace alias0 := name]> (aliases r) |}
                       name rest).1 by by rewrite Hreg.
    apply registerAliases_keeps. simpl. apply lookup_insert_eq.
Qed.

(** What [Register] does to the provider map: nothing, or one insertion
    under a name that was free. *)
Lemma Register_providers r info :
  providers (Register r info).1 = providers r
  \/ exists i,
      info = Some i
      /\ TrimSpace (Name i) <> ""
      /\ is_Some (Factory i)
      /\ client.len (providers r) < MaxProviders
      /\ providers r !! Name i = None
      /\ providers (Register r info).1
         = <[Name i := withDefaultPriority i]> (providers r).
Proof.
  unfold Register. destruct info as [i|]; [|by left].
  destruct (String.eqb_spec (TrimSpace (Name i)) ""); [by left|].
  destruct (Factory i) as [factory|] eqn:Hfac; [|by left].
  destruct (Z.leb_spec MaxProviders (client.len (providers r))); [by left|].
  destruct (providers r !! Name i) eqn:Hlook; [by left|].
  right. exists i. rewrite registerAliases_providers. simpl.
  destruct (withDefaultPriority_fields i) as (-> & _).
  rewrite Hfac. split_and!; by eauto.
Qed.

(** X1. When [Register] returns no error the provider is stored under
    its name, with the default priority filled in, and every alias that
    is not blank maps, trimmed, to that name, so that [GetProvider] with
    the alias returns the provider. *)
Theorem Register_success_lookup r info r' :
  Register r (Some info) = (r', None) ->
  providers r' !! Name info = Some (withDefaultPriority info)
  /\ forall alias, alias ∈ Aliases info -> TrimSpace alias <> "" ->
      aliases r' !! TrimSpace alias = Some (Name info)
      /\ GetProvider r' (TrimSpace alias)
         = (Some (withDefaultPriority info), None).
Proof.
  intros Hreg.
  assert (providers r' !! Name info = Some (withDefaultPriority info)) as Hprov.
  { destruct (Register_providers r (Some info)) as [Hsame|(i & [= <-] & Hrest)];
      rewrite Hreg in *; simpl in *.
    - exfalso. revert Hreg. unfold Register.
      destruct (String.eqb (TrimSpace (Name info)) ""); [done|].
      destruct (Factory info); [|done].
      destruct (MaxProviders <=? client.len (providers r)); [done|].
      destruct (providers r !! Name info) eqn:Hlook; [done|].
      intros Hreg. apply (f_equal (fun x => providers x.1)) in Hreg.
      rewrite registerAliases_providers in Hreg. simpl in Hreg.
      destruct (withDefaultPriority_fields info) as (Hn & _).
      rewrite Hn, <- Hsame in Hreg.
      apply (f_equal (fun m => m !! Name info)) in Hreg.
      rewrite lookup_insert_eq in Hreg. congruence.
    - destruct Hrest as (_ & _ & _ & _ & ->). apply lookup_insert_eq. }
  split; [done|]. intros alias Hin Hne.
  assert (aliases r' !! TrimSpace alias = Some (Name info)) as Halias.
  { revert Hreg. unfold Register.
    destruct (String.eqb (TrimSpace (Name info)) ""); [done|].
    destruct (Factory info); [|done].
    destruct (MaxProviders <=? client.len (providers r)); [done|].
    destruct (providers r !! Name info); [done|].
    destruct (withDefaultPriority_fields info) as (-> & -> & _).
    intros Hreg. by eapply registerAliases_ok. }
  split; [done|]. unfold GetProvider, resolveProviderName.
  by rewrite Halias, Hprov.
Qed.

(** X2. Whatever [Register] returns, every provider and every alias the
    registry held before the call is still there, unchanged. *)
Theorem Register_keeps_existing_entries r info :
  (forall name i, providers r !! name = Some i ->
     providers (Register r info).1 !! name = Some i)
  /\ (forall alias name, aliases r !! alias = Some name ->
        aliases (Register r info).1 !! alias = Some name).
Proof.
  split.
  - intros name i Hlook.
    destruct (Register_providers r info)
      as [->|(j & _ & _ & _ & _ & Hfree & ->)]; [done|].
    rewrite lookup_insert_ne; [done|]. congruence.
  - intros alias name Hlook. unfold Register.
    destruct info as [i|]; [|done].
    destruct (String.eqb (TrimSpace (Name i)) ""); [done|].
    destruct (Factory i); [|done].
    destruct (MaxProviders <=? client.len (providers r)); [done|].
    destruct (providers r !! Name i); [done|].
    by apply registerAliases_keeps.
Qed.

(** [Register] keeps the provider map within its capacity and its keys
    non-blank. *)
Lemma Register_capacity r info :
  client.len (providers r) <= MaxProviders
  /\ (forall name, is_Some (providers r !! name) -> TrimSpace name <> "") ->
  client.len (providers (Register r info).1) <= MaxProviders
  /\ (forall name, is_Some (providers (Register r info).1 !! name) ->
        TrimSpace name <> "").
Proof.
  intros [Hlen Hkeys].
  destruct (Register_providers r info)
    as [Hsame|(i & _ & Hname & _ & Hroom & Hfree & Hins)];
    rewrite ?Hsame, ?Hins; [done|].
  split.
  - unfold client.len in *. rewrite map_size_insert_None by done. lia.
  - intros name Hlook.
    destruct (decide (Name i = name)) as [<-|Hne]; [done|].
    rewrite lookup_insert_ne in Hlook by done. by apply Hkeys.
Qed.

Lemma Unregister_capacity r name :
  client.len (providers r) <= MaxProviders
  /\ (forall n, is_Some (providers r !! n) -> TrimSpace n <> "") ->
  client.len (providers (Unregister r name).1) <= MaxProviders
  /\ (forall n, is_Some (providers (Unregister r name).1 !! n) ->
        TrimSpace n <> "").
Proof.
  intros [Hlen Hkeys]. unfold Unregister.
  destruct (providers r !! name) as [info|] eqn:Hlook; [|done].
  split; simpl.
  - unfold client.len in *. rewrite map_size_delete, Hlook. simpl. lia.
  - intros n [i [_ Hi]%lookup_delete_Some]. apply Hkeys. by exists i.
Qed.

(** X3. After any sequence of [Register] and [Unregister] calls on an
    empty registry (failed calls included), the registry holds at most
    [MaxProviders] providers, and none of them under a blank name. Both
    facts are about the keys of the provider map, which each call
    computes from the field values it reads when it runs. *)
Theorem registry_capacity_and_keys ops :
  client.len (providers (run ops NewRegistry)) <= MaxProviders
  /\ forall name, is_Some (providers (run ops NewRegistry) !! name) ->
      TrimSpace name <> "".
Proof.
  assert (forall r,
    client.len (providers r) <= MaxProviders
    /\ (forall name, is_Some (providers r !! name) -> TrimSpace name <> "") ->
    client.len (providers (run ops r)) <= MaxProviders
    /\ (forall name, is_Some (providers (run ops r) !! name) ->
          TrimSpace name <> "")) as Hrun.
  { induction ops as [|op ops IH]; intros r Hr; [done|].
    simpl. apply IH. destruct op as [info|name]; simpl.
    - by apply Register_capacity.
    - by apply Unregister_capacity. }
  apply Hrun. split; [by vm_compute|].
  intros name [i Hlook]. unfold NewRegistry in Hlook. simpl in Hlook.
  by rewrite lookup_empty in Hlook.
Qed.

End RegistryInvariants.

(** * [Unregister], and [Register] followed by [Unregister] *)
Section RegistryOperations.
Import registry Spec2.

(** A successful [Register]: the name was free, and the alias loop ran
    to its end on the registry with the provider stored. *)
Lemma Register_ok_inv r info r' :
  Register r (Some info) = (r', None) ->
  providers r !! Name info = None
  /\ providers r' = <[Name info := withDefaultPriority info]> (providers r)
  /\ registerAliases
       {| providers := <[Name info := withDefaultPriority info]> (providers r);
          aliases := aliases r |}
       (Name info) (Aliases info)
     = (r', None).
Proof.
  unfold Register.
  destruct (String.eqb (TrimSpace (Name info)) ""); [done|].
  destruct (Factory info); [|done].
  destruct (MaxProviders <=? client.len (providers r)); [done|].
  destruct (providers r !! Name info) eqn:Hlook; [done|].
  destruct (withDefaultPriority_fields info) as (-> & -> & _).
  intros Hreg. split; [done|]. split; [|done].
  apply (f_equal (fun x => providers x.1)) in Hreg.
  by rewrite registerAliases_providers in Hreg.
Qed.

Lemma lookup_delete_all (l : list string) (m : gmap string string) a :
  fold_left (fun m alias => delete alias m) l m !! a
  = if bool_decide (a ∈ l) then None else m !! a.
Proof.
  revert m. induction l as [|x l IH]; intros m; simpl; [done|].
  rewrite IH. destruct (decide (a = x)) as [->|Hne].
  - rewrite lookup_delete_eq, (bool_decide_true (x ∈ x :: l)) by left.
    by case_bool_decide.
  - rewrite lookup_delete_ne by done.
    case_bool_decide as Hin.
    + by rewrite bool_decide_true by by right.
    + rewrite bool_decide_false; [done|].
      by intros [?|?]%elem_of_cons.
Qed.

Lemma delete_all_delete (l : list string) (m : gmap string string) a :
  fold_left (fun m alias => delete alias m) l (delete a m)
  = delete a (fold_left (fun m alias => delete alias m) l m).
Proof.
  apply map_eq. intros k. rewrite lookup_delete_all.
  destruct (decide (a = k)) as [->|Hne].
  - rewrite !lookup_delete_eq. by case_bool_decide.
  - by rewrite !lookup_delete_ne, lookup_delete_all.
Qed.

(** X5. [Unregister] of an unknown name returns "not found" and leaves
    the registry as it was. For a registered name it returns no error,
    removes that provider and no other, and removes from the alias map
    exactly the keys spelled as in the provider's [Aliases] list. *)
Theorem Unregister_effect r name :
  match providers r !! name with
  | None =>
      Unregister r name
      = (r, Some (Errorf ("provider " +:+ name +:+ " not found")))
  | Some info =>
      (Unregister r name).2 = None
      /\ providers (Unregister r name).1 !! name = None
      /\ (forall n, n <> name ->
            providers (Unregister r name).1 !! n = providers r !! n)
      /\ (forall a, a ∈ Aliases info ->
            aliases (Unregister r name).1 !! a = None)
      /\ (forall a, a ∉ Aliases info ->
            aliases (Unregister r name).1 !! a = aliases r !! a)
  end.
Proof.
  unfold Unregister. destruct (providers r !! name) as [info|]; [|done].
  simpl. split_and!.
  - done.
  - apply lookup_delete_eq.
  - intros n Hne. by apply lookup_delete_ne.
  - intros a Hin. by rewrite lookup_delete_all, bool_decide_true.
  - intros a Hin. by rewrite lookup_delete_all, bool_decide_false.
Qed.

Lemma registerAliases_undo r name rest r' :
  registerAliases r name rest = (r', None) ->
  (forall a, a ∈ rest -> TrimSpace a = a /\ a <> "") ->
  fold_left (fun m alias => delete alias m) rest (aliases r') = aliases r.
Proof.
  revert r. induction rest as [|a rest IH]; intros r Hreg Hplain.
  { simpl in *. by injection Hreg as <-. }
  simpl in Hreg. destruct (Hplain a) as [Htrim Hne]; [left|].
  rewrite Htrim in Hreg.
  destruct (String.eqb_spec a ""); [done|].
  destruct (providers r !! a); [done|].
  destruct (aliases r !! a) eqn:Hfree; [done|].
  simpl. rewrite delete_all_delete.
  rewrite (IH _ Hreg) by (intros; apply Hplain; by right).
  simpl. by apply delete_insert_id.
Qed.

(** X6. [Register] followed by [Unregister] of the same name gives the
    registry back as it was, provided the registration succeeded and
    every alias was written without surrounding white space and is not
    empty. *)
Theorem Register_then_Unregister r info r' :
  Register r (Some info) = (r', None) ->
  (forall a, a ∈ Aliases info -> TrimSpace a = a /\ a <> "") ->
  Unregister r' (Name info) = (r, None).
Proof.
  intros (Hfree & Hprov & Hloop)%Register_ok_inv Hplain.
  unfold Unregister. rewrite Hprov, lookup_insert_eq.
  destruct (withDefaultPriority_fields info) as (_ & -> & _).
  rewrite (registerAliases_undo _ _ _ _ Hloop Hplain). simpl.
  rewrite delete_insert_id by done. by destruct r.
Qed.

(** X7. An alias that [Register] stored trimmed but that was written
    with white space around it is not removed by [Unregister]: after the
    provider is gone the alias still maps to its name, unless the
    trimmed spelling is in the alias list too. *)
Theorem Unregister_leaves_alias_written_with_blanks r info r' alias :
  Register r (Some info) = (r', None) ->
  alias ∈ Aliases info ->
  TrimSpace alias <> "" ->
  TrimSpace alias ∉ Aliases info ->
  (Unregister r' (Name info)).2 = None
  /\ providers (Unregister r' (Name info)).1 !! Name info = None
  /\ aliases (Unregister r' (Name info)).1 !! TrimSpace alias
     = Some (Name info).
Proof.
  intros (Hfree & Hprov & Hloop)%Register_ok_inv Hin Hne Hnotin.
  pose proof (registerAliases_ok _ _ _ _ Hloop alias Hin Hne) as Halias.
  unfold Unregister. rewrite Hprov, lookup_insert_eq. simpl.
  destruct (withDefaultPriority_fields info) as (_ & -> & _).
  split_and!; [done|apply lookup_delete_eq|].
  by rewrite lookup_delete_all, bool_decide_false.
Qed.

(** X8. [validateConfig] accepts exactly the configurations that hold
    every key of [RequiredConfig], whatever the values; otherwise its
    error quotes the first required key, in list order, that is
    missing. *)
Theorem validateConfig_first_missing info (config : gmap string any) :
  (validateConfig info config = None
   <-> forall key, key ∈ RequiredConfig info -> is_Some (config !! key))
  /\ forall pre key post,
      RequiredConfig info = (pre ++ key :: post)%list ->
      (forall k, k ∈ pre -> is_Some (config !! k)) ->
      config !! key = None ->
      validateConfig info config
      = Some (Errorf ("required configuration key missing: " +:+ key)).
Proof.
  unfold validateConfig. generalize (RequiredConfig info) as keys.
  intros keys. split.
  - induction keys as [|k keys IH]; simpl.
    + split; [|done]. intros _ key Hin. by apply elem_of_nil in Hin.
    + destruct (config !! k) as [v|] eqn:Hk.
      * rewrite IH. split.
        -- intros Hall key [->|Hin]%elem_of_cons; [by eexists|by apply Hall].
        -- intros Hall key Hin. apply Hall. by right.
      * split; [done|]. intros Hall. destruct (Hall k) as [v Hv]; [left|].
        congruence.
  - intros pre. revert keys. induction pre as [|k pre IH];
      intros keys key post -> Hpre Hmiss; simpl.
    + by rewrite Hmiss.
    + destruct (Hpre k) as [v ->]; [left|].
      eapply IH; [done| |done]. intros k' Hk'. apply Hpre. by right.
Qed.

End RegistryOperations.

(** * Further properties of the client *)
Section ClientProviders.
Import client Spec2.

Lemma AddProvider_allocated_len c name provider :
  len (providers c) <= MaxProviders ->
  len (providers (AddProvider_allocated c name provider)) <= MaxProviders.
Proof.
  intros Hlen. unfold AddProvider_allocated.
  destruct (Z.leb_spec MaxProviders (len (providers c))); [done|]. simpl.
  unfold len in *. rewrite map_size_insert.
  destruct (providers c !! name); simpl; lia.
Qed.

Lemma addAll_len l c :
  len (providers c) <= MaxProviders ->
  exists c', addAll l c = AddProviderReturns c'
    /\ len (providers c') <= MaxProviders.
Proof.
  revert c. induction l as [|[name provider] l IH]; intros c Hlen.
  - by exists c.
  - simpl. apply IH. by apply AddProvider_allocated_len.
Qed.

(** X9. [AddProvider] on a client made by [New], any number of times,
    never panics and never leaves the client with more than
    [MaxProviders] providers. On a client whose provider map is
    allocated, a call below the cap binds the name to the instance and
    leaves the other names alone, and a call at the cap changes
    nothing, even when the name is already bound. On a client whose
    provider map is nil, such as the zero value of [Client], the call
    panics. *)
Theorem AddProvider_capacity :
  (forall l, exists c,
      addAll l New = AddProviderReturns c
      /\ len (providers c) <= MaxProviders)
  /\ (forall c name provider,
        len (providers c) < MaxProviders ->
        exists c',
          AddProvider (ProvidersAllocated c) name provider
          = AddProviderReturns c'
          /\ providers c' !! name = Some provider
          /\ (forall other, other <> name ->
                providers c' !! other = providers c !! other)
          /\ validator c' = validator c
          /\ exporter c' = exporter c)
  /\ (forall c name provider,
        MaxProviders <= len (providers c) ->
        AddProvider (ProvidersAllocated c) name provider
        = AddProviderReturns c)
  /\ (forall v e name provider,
        AddProvider (ProvidersNil v e) name provider = AddProviderPanics).
Proof.
  split_and!.
  - intros l. apply addAll_len. by vm_compute.
  - intros c name provider Hlen. eexists. split; [done|].
    unfold AddProvider_allocated.
    destruct (Z.leb_spec MaxProviders (len (providers c))); [lia|]. simpl.
    split_and!; [apply lookup_insert_eq| |done|done]. intros other Hne.
    by apply lookup_insert_ne.
  - intros c name provider Hlen. simpl. unfold AddProvider_allocated.
    by destruct (Z.leb_spec MaxProviders (len (providers c))); [|lia].
  - done.
Qed.

End ClientProviders.

Section LoadTrace.
Import client Spec2.

Variable range_order : gmap string string -> list (string * string).

Local Abbreviation loadFromSource := (loadFromSource range_order).
Local Abbreviation loadSources := (loadSources range_order).
Local Abbreviation Load := (Load range_order).

(** A source step calls [Validate], then [Load], and stops at the first
    of the two that fails. *)
Lemma loadFromSource_calls c source env strategy :
  (loadFromSource c source env strategy).2 `prefix_of` callsOf source
  /\ ((loadFromSource c source env strategy).1.2 = None ->
      (loadFromSource c source env strategy).2 = callsOf source).
Proof.
  unfold client.loadFromSource, callsOf.
  destruct (parseSource source) as [providerName actualSource]; simpl.
  destruct (providers c !! providerName) as [provider|];
    [|split; [apply prefix_nil|done]].
  destruct (Provider_Validate provider actualSource).
  { split; [|done]. by exists [CallLoad providerName actualSource]. }
  destruct (Provider_Load provider actualSource) as [config [e|]]; [done|].
  by destruct (client.mergeConfiguration range_order (Data env) config strategy)
    as [data [e|]].
Qed.

Lemma loadSources_calls c sources env strategy :
  (loadSources c sources env strategy).2
    `prefix_of` concat (callsOf <$> sources)
  /\ ((loadSources c sources env strategy).1.2 = None ->
      (loadSources c sources env strategy).2 = concat (callsOf <$> sources)).
Proof.
  revert env. induction sources as [|source sources IH]; intros env.
  { done. }
  rewrite fmap_cons. cbn [concat client.loadSources].
  destruct (loadFromSource_calls c source env strategy) as [Hpre Hall].
  destruct (loadFromSource c source env strategy) as [[env1 [e|]] calls1];
    cbn [fst snd] in *.
  - split; [|done]. by apply prefix_app_r.
  - rewrite Hall by done. destruct (IH env1) as [Hpre' Hall'].
    destruct (loadSources c sources env1 strategy) as [[env2 err] calls2];
      cbn [fst snd] in *.
    split; [by apply prefix_app|]. intros ->. by rewrite Hall'.
Qed.

(** What the loop leaves when every step went through. *)
Lemma loadSources_ok_inv c sources env strategy env' calls :
  loadSources c sources env strategy = (env', None, calls) ->
  env_client env' = env_client env
  /\ exists added,
      EnvSources env' = (EnvSources env ++ added)%list
      /\ SI_Name <$> added = sources
      /\ SI_Provider <$> added = (fun s => (parseSource s).1) <$> sources
      /\ totalKeyCount added = len (Data env') - len (Data env).
Proof.
  revert env calls. induction sources as [|source sources IH];
    intros env calls; simpl.
  - intros [= <- <-]. split; [done|]. exists [].
    rewrite (right_id_L [] (++)). split_and!; [done..|].
    unfold totalKeyCount. simpl. lia.
  - destruct (loadFromSource c source env strategy) as [[env1 [e|]] calls1]
      eqn:Hstep; [done|].
    destruct (loadSources c sources env1 strategy) as [[env2 err] calls2]
      eqn:Hloop.
    intros [= -> -> <-].
    apply IH in Hloop as (Hclient & added & Hsrc & Hnames & Hprov & Hsum).
    apply loadFromSource_ok_inv in Hstep
      as (provider & config & data & _ & _ & _ & _ & _ & ->).
    simpl in *. split; [done|].
    exists ({| SI_Name := source; SI_Provider := (parseSource source).1;
               SI_KeyCount := len data - len (Data env) |} :: added).
    split_and!.
    + by rewrite Hsrc, <- (assoc_L (++)).
    + rewrite fmap_cons. by rewrite Hnames.
    + rewrite fmap_cons. by rewrite Hprov.
    + unfold totalKeyCount in *. rewrite fmap_cons. simpl. lia.
Qed.

(** X10. The environment returned by [Load] records one [SourceInfo]
    per source, in the order of [options.Sources]: its [Name] is the
    specifier, its [Provider] the provider name parsed from it, and the
    recorded key counts add up to the number of keys of [Data]. *)
Theorem Load_records_every_source c o env err calls :
  Load c o = (Some env, err, calls) ->
  SI_Name <$> EnvSources env = Sources o
  /\ SI_Provider <$> EnvSources env
     = (fun s => (parseSource s).1) <$> Sources o
  /\ totalKeyCount (EnvSources env) = Size env.
Proof.
  intros (_ & _ & Hloop & _)%Load_ok_inv.
  apply loadSources_ok_inv in Hloop
    as (_ & added & Hsrc & Hnames & Hprov & Hsum).
  simpl in *. rewrite Hsrc. split_and!; [done..|].
  rewrite Hsum. unfold Size, len. rewrite map_size_empty. lia.
Qed.

(** X11. The provider calls [Load] makes are, in order, [Validate] then
    [Load] for each source: always a prefix of that sequence, and the
    whole of it when an environment is returned. No provider is called
    for a source after one that failed. *)
Theorem Load_calls_in_source_order c o :
  (Load c o).2 `prefix_of` concat (callsOf <$> Sources o)
  /\ (is_Some (Load c o).1.1 ->
      (Load c o).2 = concat (callsOf <$> Sources o)).
Proof.
  unfold client.Load. destruct (Sources o) as [|source rest] eqn:Hs.
  { simpl. split; [done|]. by intros [? ?]. }
  rewrite <- Hs.
  destruct (loadSources_calls c (Sources o)
              {| Data := ∅; EnvSources := []; env_client := c |} (Strategy o))
    as [Hpre Hall].
  destruct (client.loadSources _ _ _ _ _) as [[env1 [e|]] calls1]; simpl in *.
  { split; [done|]. by intros [? ?]. }
  rewrite Hall by done.
  destruct (match validator c with Some v => v (Data env1) | None => None end);
    [done|].
  by destruct (MaxEnvironmentKeys <? len (Data env1)).
Qed.

Lemma mergeEntries_keeps target entries strategy :
  (forall k, is_Some (target !! k) ->
     is_Some ((mergeEntries target entries strategy).1 !! k))
  /\ (strategy <> MergeStrategyOverride ->
      forall k v, target !! k = Some v ->
        (mergeEntries target entries strategy).1 !! k = Some v).
Proof.
  revert target. induction entries as [|[key value] entries IH];
    intros target; simpl; [done|].
  assert (forall k, is_Some (target !! k) ->
            is_Some (<[key := value]> target !! k)) as Hins.
  { intros k Hk. destruct (decide (key = k)) as [->|Hne].
    - rewrite lookup_insert_eq. by eexists.
    - by rewrite lookup_insert_ne. }
  destruct (target !! key) as [existing|] eqn:Hlook.
  - destruct strategy; simpl.
    + destruct (IH (<[key := value]> target)) as [Hsome _].
      split; [|done]. intros k Hk. by apply Hsome, Hins.
    + apply IH.
    + done.
  - destruct (IH (<[key := value]> target)) as [Hsome Hsame].
    split.
    + intros k Hk. by apply Hsome, Hins.
    + intros Hstrat k v Hk. apply Hsame; [done|].
      rewrite lookup_insert_ne; [done|]. congruence.
Qed.

(** X13. Merging a source never removes a key from the accumulator,
    whatever the strategy, the order of the [range] and the outcome of
    the step; under [Preserve] and [Error] it never changes the value
    of a key the accumulator already had. *)
Theorem loadFromSource_keeps_keys c source env strategy :
  (forall k, is_Some (Data env !! k) ->
     is_Some (Data (loadFromSource c source env strategy).1.1 !! k))
  /\ (strategy <> MergeStrategyOverride ->
      forall k v, Data env !! k = Some v ->
        Data (loadFromSource c source env strategy).1.1 !! k = Some v).
Proof.
  unfold client.loadFromSource.
  destruct (parseSource source) as [providerName actualSource]; simpl.
  destruct (providers c !! providerName) as [provider|]; [|done].
  destruct (Provider_Validate provider actualSource); [done|].
  destruct (Provider_Load provider actualSource) as [config [e|]]; [done|].
  unfold client.mergeConfiguration.
  pose proof (mergeEntries_keeps (Data env) (range_order config) strategy)
    as Hkeeps.
  by destruct (mergeEntries (Data env) (range_order config) strategy)
    as [data [e|]].
Qed.

End LoadTrace.

Section LoadStrategies.
Import client Spec2.

Variable range_order : gmap string string -> list (string * string).
Hypothesis range_order_perm : forall m, range_order m ≡ₚ map_to_list m.

Local Abbreviation loadFromSource := (loadFromSource range_order).
Local Abbreviation mergeConfiguration := (mergeConfiguration range_order).

(** Under [Error] the merge succeeds exactly when no key is shared. *)
Lemma mergeConfiguration_error_ok target source data :
  mergeConfiguration target source MergeStrategyError = (data, None) ->
  (forall k, is_Some (source !! k) -> target !! k = None)
  /\ data = source ∪ target.
Proof.
  intros Hmerge.
  assert (forall k, is_Some (source !! k) -> target !! k = None) as Hdisj.
  { intros k Hk. destruct (target !! k) as [v|] eqn:Htarget; [|done].
    destruct (mergeConfiguration_error_conflict range_order range_order_perm
                target source) as (? & ? & ? & ? & _ & _ & Heq).
    - exists k. split; [done|]. by rewrite Htarget.
    - unfold client.mergeConfiguration in *. congruence. }
  split; [done|].
  rewrite (mergeConfiguration_error_disjoint range_order range_order_perm)
    in Hmerge by done.
  congruence.
Qed.

(** X14. Under the [Error] strategy a source step that goes through
    found no key of the source in the accumulator: the new data is the
    disjoint union of the two, and the step appends to the recorded
    sources one entry, whose [KeyCount] is the number of keys the source
    yielded. *)
Theorem loadFromSource_error_strategy_success c source env env' calls :
  loadFromSource c source env MergeStrategyError = (env', None, calls) ->
  exists provider config,
    providers c !! (parseSource source).1 = Some provider
    /\ Provider_Load provider (parseSource source).2 = (config, None)
    /\ (forall k, is_Some (config !! k) -> Data env !! k = None)
    /\ Data env' = config ∪ Data env
    /\ len (Data env') - len (Data env) = len config
    /\ EnvSources env'
       = (EnvSources env ++
            [ {| SI_Name := source;
                 SI_Provider := (parseSource source).1;
                 SI_KeyCount := len config |} ])%list.
Proof.
  intros (provider & config & data & Hp & _ & Hl & Hmerge & _ & ->)
    %loadFromSource_ok_inv.
  apply mergeConfiguration_error_ok in Hmerge as [Hdisj ->].
  assert (len (config ∪ Data env) - len (Data env) = len config) as Hcount.
  { unfold len. rewrite map_size_disj_union; [lia|].
    apply map_disjoint_spec. intros k v1 v2 Hv1 Hv2.
    rewrite Hdisj in Hv2; [done|by eexists]. }
  exists provider, config. simpl. rewrite Hcount. by split_and!.
Qed.

(** X15. [Keys] lists every key of the environment once: a key is
    listed exactly when [Get] finds it, the number of keys listed is
    [Size], and [IsEmpty] holds exactly when none is listed. *)
Theorem Keys_lists_each_key_once e :
  NoDup (Keys range_order e)
  /\ (forall k, k ∈ Keys range_order e <-> (Get e k).2 = true)
  /\ Z.of_nat (length (Keys range_order e)) = Size e
  /\ (IsEmpty e = true <-> Keys range_order e = []).
Proof.
  unfold Keys, Get, Size, IsEmpty, len.
  assert (length (range_order (Data e)).*1 = size (Data e)) as Hlen.
  { by rewrite length_fmap, range_order_perm, length_map_to_list. }
  split_and!.
  - by apply range_order_NoDup.
  - intros k. rewrite list_elem_of_fmap. split.
    + intros ([k' v] & -> & Hin).
      apply (elem_of_range_order range_order range_order_perm) in Hin.
      simpl. by rewrite Hin.
    + destruct (Data e !! k) as [v|] eqn:Hk; [|done]. intros _.
      exists (k, v). split; [done|].
      by apply (elem_of_range_order range_order range_order_perm).
  - by rewrite Hlen.
  - rewrite <- Hlen. rewrite Z.eqb_eq.
    destruct (range_order (Data e)).*1; simpl; split; (done || lia).
Qed.

End LoadStrategies.

Section RangeOrders.
Import client Spec2.

Variables order1 order2 : gmap string string -> list (string * string).
Hypothesis order1_perm : forall m, order1 m ≡ₚ map_to_list m.
Hypothesis order2_perm : forall m, order2 m ≡ₚ map_to_list m.





End RangeOrders.

Section EnvironmentAccess.
Import client Spec2.

(** X17. On an environment whose [Data] map is allocated [Set]
    returns: on a key the environment has it keeps [Size] and on a new
    key it raises [Size] by one; a second [Set] of the same key
    replaces the first; setting a key to the value it has changes
    nothing. *)
Theorem Set_Size e k v :
  exists e',
    Set_ (DataAllocated e) k v = SetReturns e'
    /\ Size e' = (if (Get e k).2 then Size e else Size e + 1)
    /\ (forall v0, exists e0,
          Set_ (DataAllocated e) k v0 = SetReturns e0
          /\ Set_ (DataAllocated e0) k v = SetReturns e')
    /\ (Get e k = (v, true) -> e' = e).
Proof.
  eexists. split; [done|]. unfold Size, Get, len. simpl. split_and!.
  - rewrite map_size_insert. destruct (Data e !! k); simpl; lia.
  - intros v0. eexists. split; [done|]. simpl. by rewrite insert_insert_eq.
  - destruct (Data e !! k) as [v'|] eqn:Hk; [|done]. intros [= ->].
    rewrite insert_id by done. by destruct e.
Qed.

Variable range_order : gmap string string -> list (string * string).

Local Abbreviation loadFromSource := (loadFromSource range_order).
Local Abbreviation loadSources := (loadSources range_order).
Local Abbreviation Load := (Load range_order).





End EnvironmentAccess.

(** * The validators *)
Section Validators.
Import client Spec2.

Lemma validateKey_None key : validator.validateKey key = None <-> validKey key.
Proof.
  unfold validator.validateKey, validKey.
  destruct (String.eqb_spec (TrimSpace key) "").
  { split; [done|]. by intros (? & _). }
  destruct (Z.ltb_spec validator.MaxKeyLength (strlen key)).
  { split; [done|]. intros (_ & ? & _). lia. }
  destruct (ContainsAny key validator.invalidKeyChars).
  { split; [done|]. by intros (_ & _ & ?). }
  done.
Qed.

Lemma validateValue_None key value :
  validator.validateValue key value = None
  <-> strlen value <= validator.MaxValueLength.
Proof.
  unfold validator.validateValue.
  destruct (Z.ltb_spec validator.MaxValueLength (strlen value)).
  - split; [done|]. lia.
  - done.
Qed.

Lemma validateEntries_None entries :
  validator.validateEntries entries = None
  <-> forall k v, (k, v) ∈ entries ->
        validKey k /\ strlen v <= validator.MaxValueLength.
Proof.
  induction entries as [|[key value] entries IH]; simpl.
  { split; [|done]. intros _ k v Hin. by apply elem_of_nil in Hin. }
  pose proof (validateKey_None key) as Hkey.
  pose proof (validateValue_None key value) as Hvalue.
  destruct (validator.validateKey key).
  { split; [done|]. intros Hall. destruct (Hall key value) as [Hk _]; [left|].
    by apply Hkey in Hk. }
  destruct (validator.validateValue key value).
  { split; [done|]. intros Hall. destruct (Hall key value) as [_ Hv]; [left|].
    by apply Hvalue in Hv. }
  rewrite IH. split.
  - intros Hall k v [[= -> ->]|Hin]%elem_of_cons; [|by apply Hall].
    split; [by apply Hkey|by apply Hvalue].
  - intros Hall k v Hin. apply Hall. by right.
Qed.

(** X21. [CompositeValidator.Validate] accepts a mapping exactly when
    every validator of the list does; otherwise it returns, unchanged,
    the error of the first validator in list order that rejects. *)
Theorem CompositeValidator_first_rejection
    (validators : validator.CompositeValidator) config :
  (validator.CompositeValidator_Validate validators config = None
   <-> forall v, v ∈ validators -> v config = None)
  /\ forall pre v post err,
      validators = (pre ++ v :: post)%list ->
      (forall u, u ∈ pre -> u config = None) ->
      v config = Some err ->
      validator.CompositeValidator_Validate validators config = Some err.
Proof.
  split.
  - induction validators as [|v validators IH]; simpl.
    + split; [|done]. intros _ v Hin. by apply elem_of_nil in Hin.
    + destruct (v config) as [err|] eqn:Hv.
      * split; [done|]. intros Hall. rewrite Hall in Hv; [done|left].
      * rewrite IH. split.
        -- by intros Hall u [->|Hin]%elem_of_cons; [|apply Hall].
        -- intros Hall u Hin. apply Hall. by right.
  - intros pre. revert validators. induction pre as [|u pre IH];
      intros validators v post err -> Hpre Hv; simpl.
    + by rewrite Hv.
    + rewrite Hpre by left. eapply IH; [done| |done].
      intros u' Hu'. apply Hpre. by right.
Qed.

Variable range_order : gmap string string -> list (string * string).
Hypothesis range_order_perm : forall m, range_order m ≡ₚ map_to_list m.

Lemma CustomValidator_None v config :
  validator.CustomValidator_Validate range_order v config = None
  <-> len config <= validator.MaxConfigKeys
      /\ forall key value, config !! key = Some value ->
           validKey key /\ strlen value <= validator.MaxValueLength.
Proof.
  unfold validator.CustomValidator_Validate.
  destruct (Z.ltb_spec validator.MaxConfigKeys (len config)).
  { split; [done|]. intros [? _]. lia. }
  rewrite validateEntries_None. split.
  - intros Hall. split; [done|]. intros key value Hlook. apply Hall.
    by apply (elem_of_range_order range_order range_order_perm).
  - intros [_ Hall] key value Hin. apply Hall.
    by apply (elem_of_range_order range_order range_order_perm) in Hin.
Qed.

(** X19. [CustomValidator.Validate] accepts a mapping exactly when it
    has at most [MaxConfigKeys] (1000) keys, every key is not blank, at
    most 256 bytes long and free of blanks, tabs, line breaks and [=],
    and every value is at most 4096 bytes long. The rules the validator
    was built with play no part, and neither does the order of the
    [range]. *)
Theorem CustomValidator_accepts v config :
  validator.CustomValidator_Validate range_order v config = None
  <-> len config <= validator.MaxConfigKeys
      /\ forall key value, config !! key = Some value ->
           validKey key /\ strlen value <= validator.MaxValueLength.
Proof.
  unfold validator.CustomValidator_Validate.
  destruct (Z.ltb_spec validator.MaxConfigKeys (len config)) as [Hmany|Hfew].
  - split; [done|]. intros [Hlen _]. lia.
  - rewrite validateEntries_None. split.
    + intros Hall. split; [exact Hfew|]. intros key value Hlook.
      apply Hall.
      by apply (elem_of_range_order range_order range_order_perm).
    + intros [_ Hall] key value Hin. apply Hall.
      by apply (elem_of_range_order range_order range_order_perm) in Hin.
Qed.

(** X20. When the client's validator is a [CustomValidator], every
    environment [Load] returns has at most 1000 keys, each at most
    [MaxKeyLength] bytes long, with values of at most [MaxValueLength]
    bytes. *)
Theorem Load_with_CustomValidator c o v env err calls :
  validator c = Some (validator.CustomValidator_Validate range_order v) ->
  Load range_order c o = (Some env, err, calls) ->
  len (Data env) <= validator.MaxConfigKeys
  /\ forall key value, Data env !! key = Some value ->
       strlen key <= MaxKeyLength
       /\ strlen value <= MaxValueLength
       /\ validKey key.
Proof.
  intros Hval (_ & _ & _ & Hacc & _)%Load_ok_inv.
  unfold accepts in Hacc. rewrite Hval in Hacc.
  apply CustomValidator_None in Hacc as [Hlen Hall].
  split; [done|]. intros key value Hlook.
  destruct (Hall key value Hlook) as [Hkey Hvalue].
  split_and!; [by destruct Hkey as (_ & ? & _)|done|done].
Qed.

Lemma local_validateEntries_None entries :
  local.validateEntries entries = None
  <-> forall k v, (k, v) ∈ entries -> validLocalEntry k v.
Proof.
  unfold validLocalEntry.
  induction entries as [|[key value] entries IH]; simpl.
  { split; [|done]. intros _ k v Hin. by apply elem_of_nil in Hin. }
  destruct (String.eqb_spec (TrimSpace key) "").
  { split; [done|]. intros Hall. by destruct (Hall key value) as (? & _); [left|]. }
  destruct (Z.ltb_spec local.MaxLineLength (strlen value)).
  { split; [done|]. intros Hall.
    destruct (Hall key value) as (_ & ? & _); [left|lia]. }
  destruct (ContainsAny key validator.invalidKeyChars) eqn:Hany.
  { split; [done|]. intros Hall.
    destruct (Hall key value) as (_ & _ & ?); [left|congruence]. }
  rewrite IH. split.
  - by intros Hall k v [[= -> ->]|Hin]%elem_of_cons; [|apply Hall].
  - intros Hall k v Hin. apply Hall. by right.
Qed.

(** X22. The local provider's [validateConfiguration] accepts a loaded
    mapping exactly when every key is not blank and free of blanks,
    tabs, line breaks and [=], and every value is at most
    [MaxLineLength] (8192) bytes long; it sets no limit on the length
    of a key. *)
Theorem local_validateConfiguration_accepts config :
  local.validateConfiguration range_order config = None
  <-> forall key value, config !! key = Some value ->
        TrimSpace key <> ""
        /\ strlen value <= local.MaxLineLength
        /\ ContainsAny key validator.invalidKeyChars = false.
Proof.
  unfold local.validateConfiguration. rewrite local_validateEntries_None.
  split.
  - intros Hall key value Hlook. apply Hall.
    by apply (elem_of_range_order range_order range_order_perm).
  - intros Hall key value Hin. apply Hall.
    by apply (elem_of_range_order range_order range_order_perm) in Hin.
Qed.

End Validators.

(** * The [load] command *)
Section LoadCommand.
Import client Spec2.

Lemma strategy_known (s : string) :
  existsb (String.eqb s) ["override"; "preserve"; "error"] = true
  <-> s ∈ ["override"; "preserve"; "error"].
Proof.
  simpl. rewrite !elem_of_cons, elem_of_nil.
  destruct (String.eqb_spec s "override"); [by intuition|].
  destruct (String.eqb_spec s "preserve"); [by intuition|].
  destruct (String.eqb_spec s "error"); [by intuition|].
  simpl. by intuition.
Qed.

(** X23. [validateLoadInputs] accepts exactly when there are between 1
    and [MaxSources] (10) sources, the merge strategy is one of
    [override], [preserve], [error], and the schema path is empty or
    names an existing file. [parseMergeStrategy] returns no error on
    exactly those three names, so it cannot fail on inputs that were
    accepted. *)
Theorem validateLoadInputs_accepts notExist f :
  (cli.validateLoadInputs notExist f = None
   <-> (1 <= length (cli.loadSources f) <= 10)%nat
       /\ cli.loadMergeStrategy f ∈ ["override"; "preserve"; "error"]
       /\ (cli.loadSchema f = "" \/ notExist (cli.loadSchema f) = false))
  /\ (forall s, (cli.parseMergeStrategy s).2 = None
                <-> s ∈ ["override"; "preserve"; "error"])
  /\ (cli.validateLoadInputs notExist f = None ->
      (cli.parseMergeStrategy (cli.loadMergeStrategy f)).2 = None).
Proof.
  assert (forall s, (cli.parseMergeStrategy s).2 = None
                    <-> s ∈ ["override"; "preserve"; "error"]) as Hparse.
  { intros s. unfold cli.parseMergeStrategy.
    rewrite !elem_of_cons, elem_of_nil.
    destruct (String.eqb_spec s "override"); [by intuition|].
    destruct (String.eqb_spec s "preserve"); [by intuition|].
    destruct (String.eqb_spec s "error"); [by intuition|].
    simpl. by intuition. }
  assert (cli.validateLoadInputs notExist f = None
          <-> (1 <= length (cli.loadSources f) <= 10)%nat
              /\ cli.loadMergeStrategy f ∈ ["override"; "preserve"; "error"]
              /\ (cli.loadSchema f = "" \/ notExist (cli.loadSchema f) = false))
    as Hvalid.
  { unfold cli.validateLoadInputs, cli.MaxSources.
    destruct (Z.eqb_spec (Z.of_nat (length (cli.loadSources f))) 0).
    { split; [done|]. lia. }
    destruct (Z.ltb_spec 10 (Z.of_nat (length (cli.loadSources f)))).
    { split; [done|]. lia. }
    pose proof (strategy_known (cli.loadMergeStrategy f)) as Hknown.
    destruct (existsb _ _); simpl.
    2:{ split; [done|]. intros (_ & Hin & _). apply Hknown in Hin. done. }
    destruct (String.eqb_spec (cli.loadSchema f) "") as [Hempty|Hschema];
      simpl.
    { split; [|done]. intros _. split_and!; [lia|lia|by apply Hknown|by left]. }
    destruct (notExist (cli.loadSchema f)).
    { split; [done|]. by intros (_ & _ & [?|?]). }
    split; [|done]. intros _.
    split_and!; [lia|lia|by apply Hknown|by right]. }
  split_and!; [done..|].
  intros (_ & Hin & _)%Hvalid. by apply Hparse.
Qed.

Variable range_order : gmap string string -> list (string * string).

(** X24. The client the [load] command sets up knows two provider
    names, [local] and [default], both bound to the local provider: a
    specifier with any other prefix fails with "provider ... not
    found" before any provider is called. *)
Theorem setupProviders_knows_local_and_default localProvider :
  let c := cli.setupProviders localProvider New in
  providers c !! "local" = Some localProvider
  /\ providers c !! "default" = Some localProvider
  /\ forall source env strategy,
      (parseSource source).1 <> "local" ->
      (parseSource source).1 <> "default" ->
      loadFromSource range_order c source env strategy
      = (env,
         Some (Errorf ("provider " +:+ (parseSource source).1 +:+ " not found")),
         []).
Proof.
  assert (providers (cli.setupProviders localProvider New)
          = <["default" := localProvider]> (<["local" := localProvider]> ∅))
    as Hprov by done.
  cbv zeta. rewrite Hprov. split_and!; [done..|].
  intros source env strategy Hlocal Hdefault. unfold loadFromSource.
  destruct (parseSource source) as [providerName actualSource]; simpl in *.
  rewrite Hprov. by rewrite !lookup_insert_ne, lookup_empty.
Qed.

End LoadCommand.

(** * The stub providers *)
Section Kubernetes.
Import client Spec2.
Local Arguments String.append !_ _ / : simpl nomatch.

Variable c : ascii.

Lemma prefix_byte a s :
  String.prefix (String c "") (String a s) = Ascii.eqb a c.
Proof.
  cbn [String.prefix]. destruct (ascii_dec c a) as [<-|Hne].
  - destruct s; by rewrite Ascii.eqb_refl.
  - symmetry. apply Ascii.eqb_neq. congruence.
Qed.

Lemma Index_absent s :
  hasByte c s = false -> Index s (String c "") = None.
Proof.
  unfold Index. induction s as [|a s IH]; [done|].
  cbn [String.index hasByte]. rewrite prefix_byte.
  intros [-> Hs]%orb_false_iff. by rewrite IH.
Qed.

Lemma Index_first p r :
  hasByte c p = false ->
  Index (p +:+ String c r) (String c "") = Some (String.length p).
Proof.
  unfold Index.
  induction p as [|a p IH]; cbn [String.append hasByte String.length].
  - intros _. cbn [String.index]. by rewrite prefix_byte, Ascii.eqb_refl.
  - cbn [String.index]. rewrite prefix_byte.
    intros [-> Hp]%orb_false_iff. by rewrite IH.
Qed.

(** A string has no [c], or a first one. *)
Lemma first_byte s :
  hasByte c s = false
  \/ exists p r, s = p +:+ String c r /\ hasByte c p = false.
Proof.
  induction s as [|a s IH]; [by left|]. simpl.
  destruct (Ascii.eqb_spec a c) as [->|Hne].
  - right. by exists "", s.
  - destruct IH as [->|(p & r & -> & Hp)]; [by left|].
    right. exists (String a p), r. simpl.
    by destruct (Ascii.eqb_spec a c).
Qed.

Lemma countByte_absent s : hasByte c s = false -> countByte c s = 0%nat.
Proof.
  induction s as [|a s IH]; [done|]. simpl.
  intros [-> Hs]%orb_false_iff. by rewrite IH.
Qed.

Lemma countByte_first p r :
  hasByte c p = false ->
  countByte c (p +:+ String c r) = S (countByte c r).
Proof.
  induction p as [|a p IH]; simpl.
  - by rewrite Ascii.eqb_refl.
  - intros [-> Hp]%orb_false_iff. by rewrite IH.
Qed.

Lemma countByte_le_length s : (countByte c s <= String.length s)%nat.
Proof.
  induction s as [|a s IH]; simpl; [lia|]. destruct (Ascii.eqb a c); lia.
Qed.

(** What is left of [p ++ c ++ r] after the cut at the first [c]. *)
Lemma rest_after_first p r :
  String.substring (String.length p + String.length (String c ""))
    (String.length (p +:+ String c r)
     - (String.length p + String.length (String c "")))
    (p +:+ String c r)
  = r.
Proof.
  rewrite substring_skip, length_append.
  replace (String.length p + String.length (String c r)
           - (String.length p + String.length (String c "")))%nat
    with (String.length r) by (cbn [String.length]; lia).
  simpl. apply substring_whole.
Qed.

Lemma Count_loop_byte fuel s :
  (countByte c s <= fuel)%nat ->
  Count_loop fuel s (String c "") = countByte c s.
Proof.
  revert s. induction fuel as [|fuel IH]; intros s Hfuel; simpl; [lia|].
  destruct (first_byte s) as [Hs|(p & r & -> & Hp)].
  - by rewrite Index_absent, countByte_absent.
  - rewrite Index_first, rest_after_first, countByte_first by done.
    rewrite countByte_first in Hfuel by done. rewrite IH; [done|lia].
Qed.

Lemma Split_fuel s :
  Split s (String c "") = genSplit_loop (countByte c s) s (String c "").
Proof.
  unfold Split, Count. rewrite Count_loop_byte by apply countByte_le_length.
  by rewrite Nat.min_l by apply countByte_le_length.
Qed.

Lemma Split_absent s : hasByte c s = false -> Split s (String c "") = [s].
Proof. intros Hs. by rewrite Split_fuel, countByte_absent. Qed.

Lemma Split_first p r :
  hasByte c p = false ->
  Split (p +:+ String c r) (String c "") = p :: Split r (String c "").
Proof.
  intros Hp. rewrite !Split_fuel, countByte_first by done.
  cbn [genSplit_loop]. rewrite Index_first by done.
  by rewrite substring_append_prefix, rest_after_first.
Qed.

Lemma Split_length s :
  length (Split s (String c "")) = S (countByte c s).
Proof.
  remember (countByte c s) as n eqn:Hn. revert s Hn.
  induction n as [|n IH]; intros s Hn.
  - destruct (first_byte s) as [Hs|(p & r & -> & Hp)].
    + by rewrite Split_absent.
    + by rewrite countByte_first in Hn.
  - destruct (first_byte s) as [Hs|(p & r & -> & Hp)].
    + by rewrite countByte_absent in Hn.
    + rewrite Split_first by done. rewrite countByte_first in Hn by done.
      simpl. f_equal. apply IH. congruence.
Qed.

End Kubernetes.

Section StubProviders.
Import client Spec2.

(** X25. The Kubernetes provider accepts a source exactly when it is
    not blank and holds at most two slashes. One field is a secret name
    in the provider's namespace, two fields are resource type and name
    in that namespace, three fields are namespace, type and name. *)
Theorem kubernetes_parseSource_by_slashes p source :
  (kubernetes.Validate p source = None
   <-> TrimSpace source <> "" /\ (countByte "/" source <= 2)%nat)
  /\ (TrimSpace source <> "" ->
      forall ns ty name,
        hasByte "/" ns = false -> hasByte "/" ty = false ->
        hasByte "/" name = false ->
        (source = name ->
         kubernetes.parseSource p source
         = (kubernetes.namespace p, "secret", name, None))
        /\ (source = ty +:+ String "/" name ->
            kubernetes.parseSource p source
            = (kubernetes.namespace p, ty, name, None))
        /\ (source = ns +:+ String "/" (ty +:+ String "/" name) ->
            kubernetes.parseSource p source = (ns, ty, name, None))).
Proof.
  unfold kubernetes.Validate, kubernetes.parseSource. split.
  - destruct (String.eqb_spec (TrimSpace source) ""); [by intuition|].
    pose proof (Split_length "/" source) as Hlen.
    destruct (Split source "/") as [|a [|b [|d [|e l]]]]; simpl in *;
      (split;
       [intros ?; split; first [done|lia]
       |intros [_ ?]; first [done|exfalso; lia]]).
  - intros Hne ns ty name Hns Hty Hname.
    destruct (String.eqb_spec (TrimSpace source) ""); [done|].
    split_and!; intros ->.
    + by rewrite Split_absent.
    + by rewrite Split_first, Split_absent.
    + by rewrite !Split_first, Split_absent.
Qed.


End StubProviders.

(** * The registration of the built-in providers *)
Section BuiltinProviders.
Import registry Spec2.

Variable NewProviderWithBase : string -> client.Provider.

Local Abbreviation localInfo := (providers.localInfo NewProviderWithBase).
Local Abbreviation InitializeProviders :=
  (providers.InitializeProviders NewProviderWithBase).

Lemma Register_keeps_providers r info name i :
  providers r !! name = Some i ->
  providers (Register r info).1 !! name = Some i.
Proof.
  intros Hlook.
  destruct (Register_providers r info)
    as [->|(j & _ & _ & _ & _ & Hfree & ->)]; [done|].
  rewrite lookup_insert_ne; [done|]. congruence.
Qed.

Lemma Register_keeps_aliases r info alias name :
  aliases r !! alias = Some name ->
  aliases (Register r info).1 !! alias = Some name.
Proof.
  intros Hlook. unfold Register.
  destruct info as [i|]; [|done].
  destruct (String.eqb (TrimSpace (Name i)) ""); [done|].
  destruct (Factory i); [|done].
  destruct (MaxProviders <=? client.len (providers r)); [done|].
  destruct (providers r !! Name i); [done|].
  by apply registerAliases_keeps.
Qed.

(** A successful [Register] of an entry whose priority is set. *)
Lemma Register_ok_entry r info r' :
  Register r (Some info) = (r', None) ->
  Priority info <> 0 ->
  providers r' !! Name info = Some info
  /\ forall alias, alias ∈ Aliases info -> TrimSpace alias <> "" ->
      aliases r' !! TrimSpace alias = Some (Name info).
Proof.
  intros (_ & Hprov & Hloop)%Register_ok_inv Hprio.
  assert (withDefaultPriority info = info) as Hsame.
  { unfold withDefaultPriority. by destruct (Z.eqb_spec (Priority info) 0). }
  rewrite Hsame in *. split.
  - rewrite Hprov. apply lookup_insert_eq.
  - intros alias Hin Hne. by eapply registerAliases_ok.
Qed.

(** X27. When [InitializeProviders] returns no error the registry
    holds the providers [local], [kubernetes] and [vault] and maps each
    of their seven aliases to its provider. A second call fails and
    leaves the registry as it is. *)
Theorem InitializeProviders_registers_once r r' :
  InitializeProviders r = (r', None) ->
  providers r' !! "local" = Some localInfo
  /\ providers r' !! "kubernetes" = Some providers.k8sInfo
  /\ providers r' !! "vault" = Some providers.vaultInfo
  /\ (forall alias, alias ∈ ["file"; "fs"; "filesystem"] ->
        aliases r' !! alias = Some "local")
  /\ (forall alias, alias ∈ ["k8s"; "kube"] ->
        aliases r' !! alias = Some "kubernetes")
  /\ (forall alias, alias ∈ ["hcvault"; "hashicorp-vault"] ->
        aliases r' !! alias = Some "vault")
  /\ exists e, InitializeProviders r' = (r', Some e).
Proof.
  unfold providers.InitializeProviders, providers.initializeLocalProvider,
    providers.initializeKubernetesProvider, providers.initializeVaultProvider.
  destruct (Register r (Some localInfo)) as [r1 [e|]] eqn:H1; [done|].
  destruct (Register r1 (Some providers.k8sInfo)) as [r2 [e|]] eqn:H2; [done|].
  destruct (Register r2 (Some providers.vaultInfo)) as [r3 [e|]] eqn:H3;
    [done|].
  intros [= <-].
  apply Register_ok_entry in H1 as [Hp1 Ha1]; [|done].
  pose proof H2 as H2'. pose proof H3 as H3'.
  apply Register_ok_entry in H2 as [Hp2 Ha2]; [|done].
  apply Register_ok_entry in H3 as [Hp3 Ha3]; [|done].
  assert (forall name i, providers r1 !! name = Some i ->
            providers r3 !! name = Some i) as Hkeep1.
  { intros name i Hlook.
    replace r3 with (Register r2 (Some providers.vaultInfo)).1
      by by rewrite H3'.
    apply Register_keeps_providers.
    replace r2 with (Register r1 (Some providers.k8sInfo)).1 by by rewrite H2'.
    by apply Register_keeps_providers. }
  assert (forall alias name, aliases r1 !! alias = Some name ->
            aliases r2 !! alias = Some name) as Hkeep12.
  { intros alias name Hlook.
    replace r2 with (Register r1 (Some providers.k8sInfo)).1 by by rewrite H2'.
    by apply Register_keeps_aliases. }
  assert (forall alias name, aliases r2 !! alias = Some name ->
            aliases r3 !! alias = Some name) as Hkeep23.
  { intros alias name Hlook.
    replace r3 with (Register r2 (Some providers.vaultInfo)).1
      by by rewrite H3'.
    by apply Register_keeps_aliases. }
  split_and!.
  - by apply Hkeep1.
  - replace r3 with (Register r2 (Some providers.vaultInfo)).1
      by by rewrite H3'.
    by apply Register_keeps_providers.
  - done.
  - intros alias Hin. apply Hkeep23, Hkeep12.
    assert (TrimSpace alias = alias) as Htrim.
    { repeat (apply elem_of_cons in Hin as [->|Hin]; [by vm_compute|]).
      by apply elem_of_nil in Hin. }
    rewrite <- Htrim. apply Ha1; [done|]. rewrite Htrim.
    repeat (apply elem_of_cons in Hin as [->|Hin]; [done|]).
    by apply elem_of_nil in Hin.
  - intros alias Hin. apply Hkeep23.
    assert (TrimSpace alias = alias) as Htrim.
    { repeat (apply elem_of_cons in Hin as [->|Hin]; [by vm_compute|]).
      by apply elem_of_nil in Hin. }
    rewrite <- Htrim. apply Ha2; [done|]. rewrite Htrim.
    repeat (apply elem_of_cons in Hin as [->|Hin]; [done|]).
    by apply elem_of_nil in Hin.
  - intros alias Hin.
    assert (TrimSpace alias = alias) as Htrim.
    { repeat (apply elem_of_cons in Hin as [->|Hin]; [by vm_compute|]).
      by apply elem_of_nil in Hin. }
    rewrite <- Htrim. apply Ha3; [done|]. rewrite Htrim.
    repeat (apply elem_of_cons in Hin as [->|Hin]; [done|]).
    by apply elem_of_nil in Hin.
  - destruct (Register_rejected_before_insert r3 (Some localInfo))
      as [Hsame [e He]].
    { right. right. right. exists localInfo. apply Hkeep1. exact Hp1. }
    destruct (Register r3 (Some localInfo)) as [r4 err]. simpl in *. subst.
    by eexists.
Qed.

End BuiltinProviders.

(** * The further statements on concrete inputs *)
Section FurtherInstances.
Import client registry Spec2 Examples Examples2.


Lemma Register_success_lookup_witness :
  let r' := (Register NewRegistry (Some infoLocalBlank)).1 in
  registry.providers r' !! "local" = Some (withDefaultPriority infoLocalBlank)
  /\ aliases r' !! "file" = Some "local"
  /\ GetProvider r' "file" = (Some (withDefaultPriority infoLocalBlank), None).
Proof.
  cbv zeta.
  destruct (Register_success_lookup NewRegistry infoLocalBlank
              (Register NewRegistry (Some infoLocalBlank)).1 eq_refl)
    as [Hprov Halias].
  split; [exact Hprov|].
  apply (Halias " file "); [left|by vm_compute].
Defined.

Lemma Register_then_Unregister_witness :
  Unregister (Register NewRegistry (Some infoLocalPlain)).1 "local"
  = (NewRegistry, None).
Proof.
  apply (Register_then_Unregister NewRegistry infoLocalPlain
           (Register NewRegistry (Some infoLocalPlain)).1 eq_refl).
  intros a Hin.
  repeat (apply elem_of_cons in Hin as [->|Hin]; [by vm_compute|]).
  by apply elem_of_nil in Hin.
Defined.

Lemma Unregister_leaves_alias_written_with_blanks_witness :
  let r' := (Register NewRegistry (Some infoLocalBlank)).1 in
  (Unregister r' "local").2 = None
  /\ registry.providers (Unregister r' "local").1 !! "local" = None
  /\ aliases (Unregister r' "local").1 !! "file" = Some "local".
Proof.
  cbv zeta.
  apply (Unregister_leaves_alias_written_with_blanks NewRegistry infoLocalBlank
           (Register NewRegistry (Some infoLocalBlank)).1 " file " eq_refl).
  - left.
  - by vm_compute.
  - assert (TrimSpace " file " = "file") as -> by by vm_compute.
    intros [Heq|Hin]%elem_of_cons; [done|by apply elem_of_nil in Hin].
Defined.

Lemma Load_records_every_source_witness :
  exists env err calls,
    Load map_to_list clientAB (optionsAB MergeStrategyOverride)
    = (Some env, err, calls)
    /\ SI_Name <$> EnvSources env = ["a:x"; "b:y"]
    /\ SI_Provider <$> EnvSources env = ["a"; "b"]
    /\ totalKeyCount (EnvSources env) = Size env.
Proof.
  destruct (Load map_to_list clientAB (optionsAB MergeStrategyOverride))
    as [[[env|] err] calls] eqn:Hload; [|by vm_compute in Hload].
  exists env, err, calls. split; [reflexivity|].
  exact (Load_records_every_source map_to_list clientAB
           (optionsAB MergeStrategyOverride) env err calls Hload).
Defined.

Lemma loadFromSource_error_strategy_success_witness :
  let step := loadFromSource map_to_list clientAC "c:z" envK
                MergeStrategyError in
  step.1.2 = None
  /\ exists provider config,
       client.providers clientAC !! (parseSource "c:z").1 = Some provider
       /\ Provider_Load provider (parseSource "c:z").2 = (config, None)
       /\ (forall k, is_Some (config !! k) -> Data envK !! k = None)
       /\ Data step.1.1 = config ∪ Data envK
       /\ len (Data step.1.1) - len (Data envK) = len config
       /\ EnvSources step.1.1
          = (EnvSources envK ++
               [ {| SI_Name := "c:z";
                    SI_Provider := (parseSource "c:z").1;
                    SI_KeyCount := len config |} ])%list.
Proof.
  cbv zeta. split; [reflexivity|].
  apply (loadFromSource_error_strategy_success map_to_list map_to_list_order
           clientAC "c:z" envK _
           (loadFromSource map_to_list clientAC "c:z" envK
              MergeStrategyError).2).
  reflexivity.
Defined.

Lemma Keys_lists_each_key_once_witness :
  NoDup (Keys map_to_list envA)
  /\ (forall k, k ∈ Keys map_to_list envA <-> (Get envA k).2 = true)
  /\ Z.of_nat (length (Keys map_to_list envA)) = Size envA
  /\ (IsEmpty envA = true <-> Keys map_to_list envA = []).
Proof.
  exact (Keys_lists_each_key_once map_to_list map_to_list_order envA).
Defined.



Lemma CustomValidator_accepts_witness :
  validator.CustomValidator_Validate map_to_list
    (validator.NewCustomValidator []) {["K" := "1"]} = None
  <-> len ({["K" := "1"]} : gmap string string) <= validator.MaxConfigKeys
      /\ forall key value,
           ({["K" := "1"]} : gmap string string) !! key = Some value ->
           validKey key /\ strlen value <= validator.MaxValueLength.
Proof.
  exact (CustomValidator_accepts map_to_list map_to_list_order
           (validator.NewCustomValidator []) {["K" := "1"]}).
Defined.

Lemma Load_with_CustomValidator_witness :
  exists env err calls,
    Load map_to_list clientValidated (optionsAB MergeStrategyOverride)
    = (Some env, err, calls)
    /\ len (Data env) <= validator.MaxConfigKeys
    /\ forall key value, Data env !! key = Some value ->
         strlen key <= MaxKeyLength
         /\ strlen value <= MaxValueLength
         /\ validKey key.
Proof.
  destruct (Load map_to_list clientValidated (optionsAB MergeStrategyOverride))
    as [[[env|] err] calls] eqn:Hload; [|by vm_compute in Hload].
  exists env, err, calls. split; [reflexivity|].
  exact (Load_with_CustomValidator map_to_list map_to_list_order
           clientValidated (optionsAB MergeStrategyOverride)
           (validator.NewCustomValidator []) env err calls eq_refl Hload).
Defined.

Lemma local_validateConfiguration_accepts_witness :
  local.validateConfiguration map_to_list {["K" := "1"]} = None
  <-> forall key value,
        ({["K" := "1"]} : gmap string string) !! key = Some value ->
        TrimSpace key <> ""
        /\ strlen value <= local.MaxLineLength
        /\ ContainsAny key validator.invalidKeyChars = false.
Proof.
  exact (local_validateConfiguration_accepts map_to_list map_to_list_order
           {["K" := "1"]}).
Defined.

Lemma InitializeProviders_registers_once_witness :
  let r' := (providers.InitializeProviders localStub NewRegistry).1 in
  aliases r' !! "k8s" = Some "kubernetes"
  /\ aliases r' !! "filesystem" = Some "local"
  /\ exists e, providers.InitializeProviders localStub r' = (r', Some e).
Proof.
  cbv zeta.
  destruct (InitializeProviders_registers_once localStub NewRegistry
              (providers.InitializeProviders localStub NewRegistry).1 eq_refl)
    as (_ & _ & _ & Hlocal & Hk8s & _ & Hsecond).
  split; [apply Hk8s; left|].
  split; [apply Hlocal; right; right; left|exact Hsecond].
Defined.

End FurtherInstances.
